(** * ZipperIters: the zip iterator of [Iter.h]

    A shallow embedding of [zip::Iter], [zip::Iter::IterPack], [zip::all_equal],
    [zip::Begin] and [zip::End], and the properties of the specification that
    concern them.

    Conventions of the embedding.
    - The containers handed to [Begin]/[End] are C++ references ([Args &...]):
      a container is named by a [handle] and the [memory] maps every handle to
      the container's current elements (a [std::vector] is a [list]).
    - An [Args::iterator] is the container it points into and its signed
      offset from that container's [begin()].
    - A [std::tuple] of N components is a list of length N; the element types
      of the N containers are represented by one type [V] with its
      [operator<] and [operator==].
    - A call either is ill-formed for the pack it is instantiated with, has
      undefined behaviour, throws, or returns: see [outcome].
    - Member functions that only change [*this] are functions from the value
      of the object before the call to its value after it; the identity of
      [Iter] objects is modelled where a reference to a member escapes
      ([Iter::operator*]): see [objects]. *)

From Stdlib Require Import ZArith Lia Bool.
From stdpp Require Import base decidable option list.

Local Open Scope Z_scope.

(** ** Outcomes of a call *)

(** [class LengthEqualityException : public std::exception]. *)
Inductive exception : Type :=
| LengthEqualityException.

Inductive outcome (A : Type) : Type :=
| IllFormed                 (* the call does not compile for this pack *)
| Undefined                 (* the call has undefined behaviour *)
| Throw (e : exception)     (* the call throws [e] *)
| Return (a : A).           (* the call returns [a] *)

Arguments IllFormed {A}.
Arguments Undefined {A}.
Arguments Throw {A} e.
Arguments Return {A} a.

Definition bind {A B : Type} (c : outcome A) (k : A -> outcome B) : outcome B :=
  match c with
  | IllFormed => IllFormed
  | Undefined => Undefined
  | Throw e => Throw e
  | Return a => k a
  end.

Notation "'let*' x := c 'in' k" := (bind c (fun x => k))
  (at level 10, x pattern, c at level 100, k at level 200, only parsing).

(** Evaluate every argument of a pack expansion and collect the results. *)
Fixpoint collect {A : Type} (args : list (outcome A)) : outcome (list A) :=
  match args with
  | [] => Return []
  | c :: args' => let* a := c in let* rest := collect args' in Return (a :: rest)
  end.

(** The order in which the N calls of a pack expansion that are the
    arguments of one function call are evaluated: the indices [0 .. N-1], in
    the order of evaluation.  C++ leaves the order to the implementation; the
    calls are not interleaved. *)
Definition eval_order : Type := list nat.

Definition is_eval_order (N : nat) (order : eval_order) : Prop :=
  Permutation order (seq 0 N).

(** Whether a friend function defined in a nested class may name the private
    members of the enclosing class.  The nested class itself may
    ([class.access.nest]); of its friends the standard does not say (core
    issue 1699) and implementations differ: g++ denies the access, and
    grants it under [-fno-access-control]. *)
Inductive friend_access : Type :=
| nested_friend_denied
| nested_friend_granted.

(** ** [int] *)

(** [operator+] and [operator+=] take their shift as an [int]: 32 bits, two's
    complement, on the ILP32, LP64 and LLP64 data models. *)
Definition INT_MIN : Z := - 2 ^ 31.
Definition INT_MAX : Z := 2 ^ 31 - 1.

Definition is_int (z : Z) : Prop := INT_MIN <= z <= INT_MAX.

(** The integral conversion of a [std::size_t] or [std::ptrdiff_t] argument to
    the [int] parameter: the value modulo 2^32 in the range of [int]. *)
Definition to_int (z : Z) : Z := (z + 2 ^ 31) mod 2 ^ 32 - 2 ^ 31.

(** ** [std::tuple] comparisons *)

Section tuple.
Context {A : Type} (lt eq : A -> A -> bool).

(** [operator==]: every pair of components compares equal.  Both operands
    have the same tuple type; lists of different lengths are not tuples of
    one type. *)
Fixpoint tuple_eq (t u : list A) : bool :=
  match t, u with
  | [], [] => true
  | x :: t', y :: u' => eq x y && tuple_eq t' u'
  | _, _ => false
  end.

(** [operator<]: [(bool)(get<0>(t) < get<0>(u)) ||
    (!(bool)(get<0>(u) < get<0>(t)) && ttail < utail)], and [false] for
    empty tuples. *)
Fixpoint tuple_lt (t u : list A) : bool :=
  match t, u with
  | x :: t', y :: u' => lt x y || (negb (lt y x) && tuple_lt t' u')
  | _, _ => false
  end.

Definition tuple_ne (t u : list A) : bool := negb (tuple_eq t u).
Definition tuple_gt (t u : list A) : bool := tuple_lt u t.
Definition tuple_le (t u : list A) : bool := negb (tuple_lt u t).
Definition tuple_ge (t u : list A) : bool := negb (tuple_lt t u).
End tuple.

(** ** Containers and their iterators *)

Definition handle : Type := nat.

(** [typename Args::iterator]. *)
Record iterator : Type := mkIt { it_seq : handle; it_off : Z }.

(** [++x], [--x] and [std::advance(x, n)] on a random access iterator. *)
Definition it_inc (x : iterator) : iterator := mkIt (it_seq x) (it_off x + 1).
Definition it_dec (x : iterator) : iterator := mkIt (it_seq x) (it_off x - 1).
Definition std_advance (n : Z) (x : iterator) : iterator :=
  mkIt (it_seq x) (it_off x + n).

(** [x == y] and [x < y] on iterators.  Across two containers the order is
    unspecified in C++; the embedding orders by offset. *)
Definition it_eqb (x y : iterator) : bool :=
  Nat.eqb (it_seq x) (it_seq y) && (it_off x =? it_off y).
Definition it_ltb (x y : iterator) : bool := it_off x <? it_off y.

(** [x - y]: defined for two iterators into the same container only. *)
Definition it_diff (x y : iterator) : outcome Z :=
  if Nat.eqb (it_seq x) (it_seq y) then Return (it_off x - it_off y)
  else Undefined.

(** A [value_type &]: an element slot of a container. *)
Record ref : Type := mkRef { ref_seq : handle; ref_idx : nat }.

(** ** [zip::all_equal] *)

(** The three overloads: [all_equal(x)], [all_equal(x, y)] and
    [all_equal(x, y, args...)].  There is none for an empty argument list. *)
Fixpoint all_equal (x : Z) (rest : list Z) : bool :=
  match rest with
  | [] => true
  | [y] => x =? y
  | y :: args => (x =? y) && all_equal y args
  end.

(** ** [zip::Iter] and [zip::Iter::IterPack] *)

Definition Iterators : Type := list iterator.

Record IterPack : Type := mkPack { iters_ : Iterators }.

Record Iter : Type := mkIter { pack : IterPack }.

(** [Iter(typename Args::iterator &&... iters) : pack(iters...)], with
    [IterPack(iters...) : iters_(std::make_tuple(iters...))]. *)
Definition Iter_ctor (iters : list iterator) : Iter := mkIter (mkPack iters).

(** [apply_all(func, iters)]: [func] is applied to every component, by
    reference.  The calls of the pack expansion touch one component each, so
    their relative order is immaterial. *)
Definition apply_all (func : iterator -> iterator) (iters : Iterators) : Iterators :=
  map func iters.

(** [Iter &operator++()] and [Iter &operator--()]: the value of [*this]
    after the call. *)
Definition Iter_preinc (this : Iter) : Iter :=
  mkIter (mkPack (apply_all it_inc (iters_ (pack this)))).

Definition Iter_predec (this : Iter) : Iter :=
  mkIter (mkPack (apply_all it_dec (iters_ (pack this)))).

(** [difference_type operator-(const Iter &rhs) const]. *)
Definition Iter_minus (this rhs : Iter) : outcome Z :=
  match iters_ (pack this), iters_ (pack rhs) with
  | p :: _, q :: _ => it_diff p q
  | _, _ => IllFormed      (* [std::get<0>] of an empty tuple *)
  end.

(** [Iter &operator+=(int shift)]. *)
Definition Iter_plus_assign (this : Iter) (shift : Z) : Iter :=
  mkIter (mkPack (apply_all (std_advance shift) (iters_ (pack this)))).

(** [Iter operator+(int shift) const]: [it = *this; it += shift; return it]. *)
Definition Iter_plus (this : Iter) (shift : Z) : Iter :=
  let it := this in
  let it := Iter_plus_assign it shift in
  it.

(** The six position comparisons, each the [std::tuple] comparison of the
    two [iters_]. *)
Definition Iter_eq (this rhs : Iter) : bool :=
  tuple_eq it_eqb (iters_ (pack this)) (iters_ (pack rhs)).
Definition Iter_ne (this rhs : Iter) : bool :=
  tuple_ne it_eqb (iters_ (pack this)) (iters_ (pack rhs)).
Definition Iter_le (this rhs : Iter) : bool :=
  tuple_le it_ltb (iters_ (pack this)) (iters_ (pack rhs)).
Definition Iter_ge (this rhs : Iter) : bool :=
  tuple_ge it_ltb (iters_ (pack this)) (iters_ (pack rhs)).
Definition Iter_gt (this rhs : Iter) : bool :=
  tuple_gt it_ltb (iters_ (pack this)) (iters_ (pack rhs)).
Definition Iter_lt (this rhs : Iter) : bool :=
  tuple_lt it_ltb (iters_ (pack this)) (iters_ (pack rhs)).

(** [containers.begin()]. *)
Definition c_begin (c : handle) : iterator := mkIt c 0.

Section Memory.
Context {V : Type}.

(** The containers, by handle. *)
Definition memory : Type := handle -> list V.

(** [containers.size()] and [containers.end()]. *)
Definition c_size (m : memory) (c : handle) : Z := Z.of_nat (length (m c)).
Definition c_end (m : memory) (c : handle) : iterator := mkIt c (c_size m c).

(** [Begin(Args &...containers)]. *)
Definition Begin (m : memory) (containers : list handle) : outcome Iter :=
  match map (c_size m) containers with
  | [] => IllFormed      (* no overload of [all_equal] takes no argument *)
  | x :: rest =>
      if negb (all_equal x rest) then Throw LengthEqualityException
      else Return (Iter_ctor (map c_begin containers))
  end.

(** [End(Args &...containers)]. *)
Definition End (m : memory) (containers : list handle) : Iter :=
  Iter_ctor (map (c_end m) containers).

(** *** Element access *)

(** [*x] on an iterator: a reference to the element it points at.  Outside
    [begin(), end()) there is no such element. *)
Definition it_star (m : memory) (x : iterator) : outcome ref :=
  if (0 <=? it_off x) && (it_off x <? c_size m (it_seq x))
  then Return (mkRef (it_seq x) (Z.to_nat (it_off x)))
  else Undefined.

(** Reading and assigning through a [value_type &]. *)
Definition load (m : memory) (r : ref) : outcome V :=
  match m (ref_seq r) !! ref_idx r with
  | Some v => Return v
  | None => Undefined
  end.

Definition assign (m : memory) (r : ref) (v : V) : memory :=
  fun c => if decide (c = ref_seq r) then <[ref_idx r := v]> (m c) else m c.

Definition load_all (m : memory) (refs : list ref) : outcome (list V) :=
  collect (map (load m) refs).

(** [std::forward_as_tuple(args...)]: the tuple of the references. *)
Definition std_forward_as_tuple {A : Type} (args : list (outcome A)) : outcome (list A) :=
  collect args.

(** [std::forward<>(args...)]: [std::forward] is
    [template<class T> T &&forward(remove_reference_t<T> &)] and
    [... forward(remove_reference_t<T> &&)].  Both take one argument, and
    [T] stands in a non-deduced context only, so with an empty template
    argument list no overload is viable, whatever the arguments. *)
Definition std_forward {A : Type} (args : list (outcome A)) : outcome (list A) :=
  IllFormed.

(** [auto deref_(std::index_sequence<Seq...>) const]. *)
Definition IterPack_deref_c_ (m : memory) (this : IterPack) : outcome (list ref) :=
  std_forward_as_tuple (map (it_star m) (iters_ this)).

(** [auto deref_(std::index_sequence<Seq...>)]. *)
Definition IterPack_deref_ (m : memory) (this : IterPack) : outcome (list ref) :=
  std_forward (map (it_star m) (iters_ this)).

(** [auto deref() const] and [auto deref()]. *)
Definition IterPack_deref_c (m : memory) (this : IterPack) : outcome (list ref) :=
  IterPack_deref_c_ m this.

Definition IterPack_deref (m : memory) (this : IterPack) : outcome (list ref) :=
  IterPack_deref_ m this.

(** [std::tuple<typename Args::value_type &...> operator*()]: a non-const
    member, so [deref()] names the non-const overload. *)
Definition IterPack_star (m : memory) (this : IterPack) : outcome (list ref) :=
  IterPack_deref m this.

(** *** Value comparisons *)

Variables (v_lt v_eq : V -> V -> bool).

(** [bool operator<(const IterPack &rhs) const] and
    [bool operator==(const IterPack &rhs) const]: the [std::tuple]
    comparison of the two tuples of references, which compares the
    elements referred to. *)
Definition IterPack_lt (m : memory) (this rhs : IterPack) : outcome bool :=
  let* t := IterPack_deref_c m this in
  let* u := IterPack_deref_c m rhs in
  let* vt := load_all m t in
  let* vu := load_all m u in
  Return (tuple_lt v_lt vt vu).

Definition IterPack_eq (m : memory) (this rhs : IterPack) : outcome bool :=
  let* t := IterPack_deref_c m this in
  let* u := IterPack_deref_c m rhs in
  let* vt := load_all m t in
  let* vu := load_all m u in
  Return (tuple_eq v_eq vt vu).

(** *** Swap *)

(** [std::swap(a, b)]: [tmp = a; a = b; b = tmp]. *)
Definition std_swap (a b : ref) (m : memory) : outcome memory :=
  let* tmp := load m a in
  let* y := load m b in
  let m1 := assign m a y in
  Return (assign m1 b tmp).

(** [std::iter_swap(p, q)]: [swap( *p, *q)]. *)
Definition std_iter_swap (p q : iterator) (m : memory) : outcome memory :=
  let* a := it_star m p in
  let* b := it_star m q in
  std_swap a b m.

(** [apply_binary_(std::index_sequence<Seq...>, binop, lhs, rhs)]:
    [null_wrap(binop(std::get<Seq>(lhs), std::get<Seq>(rhs))...)].  [binop]
    receives the components of [lhs] and [rhs] at each index, by reference,
    and may act on the memory; the calls are evaluated in the order [order]
    of the indices.  [std::get] of an index the tuples do not have is
    ill-formed. *)
Fixpoint apply_binary_ (order : eval_order)
    (binop : iterator -> iterator -> memory -> outcome (iterator * iterator * memory))
    (lhs rhs : Iterators) (m : memory) : outcome (Iterators * Iterators * memory) :=
  match order with
  | [] => Return (lhs, rhs, m)
  | i :: order' =>
      match lhs !! i, rhs !! i with
      | Some p, Some q =>
          let* (p', q', m1) := binop p q m in
          apply_binary_ order' binop (<[i := p']> lhs) (<[i := q']> rhs) m1
      | _, _ => IllFormed
      end
  end.

(** [apply_binary(binop, lhs, rhs)]: [apply_binary_] at
    [std::make_index_sequence<sizeof...(Args)>], whose indices [order] lists
    in the order of evaluation (see [is_eval_order]); [binop_r] is [binop]
    made to return a value. *)
Definition apply_binary (order : eval_order)
    (binop : iterator -> iterator -> memory -> outcome (iterator * iterator * memory))
    (lhs rhs : Iterators) (m : memory) : outcome (Iterators * Iterators * memory) :=
  apply_binary_ order binop lhs rhs m.

(** [friend void swap(IterPack &lhs, IterPack &rhs)], a friend of the nested
    class [IterPack]: its body names [apply_binary], a private member of the
    enclosing class [Iter], of which [swap] is no friend.  Where that access
    is denied no instantiation of [swap] compiles; where it is granted, the
    lambda hands its two iterators to [std::iter_swap] by value. *)
Definition IterPack_swap (access : friend_access) (order : eval_order)
    (lhs rhs : IterPack) (m : memory) : outcome (IterPack * IterPack * memory) :=
  match access with
  | nested_friend_denied => IllFormed
  | nested_friend_granted =>
      let* (l, r, m') :=
        apply_binary order
          (fun p q m0 => let* m1 := std_iter_swap p q m0 in Return (p, q, m1))
          (iters_ lhs) (iters_ rhs) m in
      Return (mkPack l, mkPack r, m')
  end.

End Memory.

(** ** [Iter] objects *)

(** The [Iter] objects alive, by address; the iterator pack is a member of
    its [Iter]. *)
Definition address : Type := nat.
Definition objects : Type := address -> Iter.

Definition update (h : objects) (this : address) (it : Iter) : objects :=
  fun a => if decide (a = this) then it else h a.

(** An [IterPack &]: the member [pack] of the [Iter] at an address. *)
Inductive pack_ref : Type :=
| pack_of (this : address).

Definition read_pack (h : objects) (r : pack_ref) : IterPack :=
  match r with pack_of this => pack (h this) end.

(** [IterPack &operator*() { return pack; }]. *)
Definition Iter_star (this : address) (h : objects) : objects * pack_ref :=
  (h, pack_of this).

(** [Iter &operator++()] on the object at [this]: the object is advanced in
    place and the call returns [*this]. *)
Definition Iter_preinc_at (this : address) (h : objects) : objects * address :=
  (update h this (Iter_preinc (h this)), this).

(** [value_type v = *it]: the implicit copy constructor of [IterPack] copies
    the member [iters_]. *)
Definition IterPack_copy (h : objects) (r : pack_ref) : IterPack :=
  mkPack (iters_ (read_pack h r)).

(** ** Cursors over a group of containers *)

(** The tuple of positions at offset [k] of every container of the group. *)
Definition at_offset (containers : list handle) (k : Z) : Iterators :=
  map (fun c => mkIt c k) containers.

(** The invariant of a cursor: component [i] points into container [i], and
    all components are [k] elements past their container's start. *)
Definition synchronized (containers : list handle) (k : Z) (it : Iter) : Prop :=
  iters_ (pack it) = at_offset containers k.

(** [new] is [old] with the elements at the indices [i] and [j] exchanged
    and every other element in place. *)
Definition exchanged {V : Type} (i j : nat) (old new : list V) : Prop :=
  length new = length old /\
  new !! i = old !! j /\
  new !! j = old !! i /\
  (forall k : nat, k <> i -> k <> j -> new !! k = old !! k).

(** A call of one of the members that move a cursor, the cursor it leaves in
    [*this], and the number of positions it moves by. *)
Inductive cursor_op : Type :=
| op_preinc
| op_predec
| op_plus_assign (shift : Z).

Definition apply_op (it : Iter) (o : cursor_op) : Iter :=
  match o with
  | op_preinc => Iter_preinc it
  | op_predec => Iter_predec it
  | op_plus_assign shift => Iter_plus_assign it shift
  end.

Definition op_shift (o : cursor_op) : Z :=
  match o with
  | op_preinc => 1
  | op_predec => -1
  | op_plus_assign shift => shift
  end.

(** ** Examples *)

(** Two containers of three elements each, and a third of two. *)
Definition mem3 : @memory Z :=
  fun c =>
    match c with
    | O => [30; 10; 20]
    | S O => [7; 8; 9]
    | _ => [1; 2]
    end.

(** Two containers of 2^31 elements each: more than an [int] can count. *)
Definition mem_big : @memory Z :=
  fun _ => replicate (Z.to_nat (2 ^ 31)) 0.

(** Every live [Iter] is the begin cursor of the first two containers. *)
Definition objs0 : objects :=
  fun _ => Iter_ctor (at_offset [0; 1]%nat 0).

(** ** Properties *)

(** *** [all_equal] *)

Lemma all_equal_cons (x y : Z) (args : list Z) :
  all_equal x (y :: args) = (x =? y) && all_equal y args.
Proof.
  destruct args as [|z args]; simpl; [now rewrite andb_true_r | reflexivity].
Qed.

Lemma all_equal_true (x : Z) (rest : list Z) :
  all_equal x rest = true <-> (forall y, In y rest -> y = x).
Proof.
  revert x. induction rest as [|y rest IH]; intros x.
  - simpl. split; [intros _ y [] | reflexivity].
  - rewrite all_equal_cons, andb_true_iff, Z.eqb_eq, IH. split.
    + intros [-> Hrest] z [<- | Hz]; [reflexivity | now apply Hrest].
    + intros H. assert (y = x) as -> by (apply H; now left).
      split; [reflexivity |]. intros z Hz. apply H. now right.
Qed.

Section BeginEnd.
Context {V : Type}.
Implicit Types (m : @memory V) (containers : list handle).

Lemma Begin_equal_lengths m containers (L : Z) :
  containers <> [] ->
  (forall c, In c containers -> c_size m c = L) ->
  Begin m containers = Return (Iter_ctor (at_offset containers 0)).
Proof.
  intros Hne HL. unfold Begin.
  destruct containers as [|c cs]; [congruence |].
  cbn [map].
  assert (all_equal (c_size m c) (map (c_size m) cs) = true) as ->.
  { apply all_equal_true. intros y Hy. apply in_map_iff in Hy as (c' & <- & Hc').
    rewrite (HL c) by now left. apply HL. now right. }
  reflexivity.
Qed.

Lemma Begin_returns m containers (b : Iter) :
  Begin m containers = Return b ->
  containers <> [] /\
  b = Iter_ctor (at_offset containers 0) /\
  exists L, forall c, In c containers -> c_size m c = L.
Proof.
  unfold Begin. destruct containers as [|c cs]; [discriminate |].
  cbn [map]. destruct (all_equal _ _) eqn:Heq; [|discriminate].
  cbn [negb]. intros [= <-]. split; [discriminate |]. split; [reflexivity |].
  exists (c_size m c). intros c' [<- | Hc']; [reflexivity |].
  apply (proj1 (all_equal_true _ _) Heq). now apply in_map.
Qed.

Lemma End_equal_lengths m containers (L : Z) :
  (forall c, In c containers -> c_size m c = L) ->
  End m containers = Iter_ctor (at_offset containers L).
Proof.
  intros HL. unfold End, at_offset, c_end. f_equal.
  apply map_ext_in. intros c Hc. now rewrite (HL c Hc).
Qed.

(** C1.  When [Begin] is called on two or more containers and two of them
    differ in length, it throws [LengthEqualityException]; the call returns
    no cursor. *)
Theorem C1_Begin_length_mismatch m containers (c1 c2 : handle) :
  (2 <= length containers)%nat ->
  In c1 containers -> In c2 containers ->
  c_size m c1 <> c_size m c2 ->
  Begin m containers = Throw LengthEqualityException /\
  (forall it : Iter, Begin m containers <> Return it).
Proof.
  intros _ H1 H2 Hne.
  assert (Begin m containers = Throw LengthEqualityException) as Hthrow.
  { unfold Begin. destruct containers as [|c cs]; [destruct H1 |].
    cbn [map]. destruct (all_equal _ _) eqn:Heq; [|reflexivity].
    exfalso. apply Hne.
    assert (forall c', In c' (c :: cs) -> c_size m c' = c_size m c) as Hall.
    { intros c' [<- | Hc']; [reflexivity |].
      apply (proj1 (all_equal_true _ _) Heq). now apply in_map. }
    now rewrite (Hall c1 H1), (Hall c2 H2). }
  split; [exact Hthrow |]. intros it. rewrite Hthrow. discriminate.
Qed.

(** C6.  For a non-empty group of containers that all have length [L],
    [Begin] returns a cursor whose every component is at offset 0 of its own
    container, and [End] returns the cursor whose every component is at
    offset [L] of its own container. *)
Theorem C6_Begin_End_equal_lengths m containers (L : Z) :
  containers <> [] ->
  (forall c, In c containers -> c_size m c = L) ->
  0 <= L /\
  (exists b, Begin m containers = Return b /\
             map it_seq (iters_ (pack b)) = containers /\
             Forall (fun x => it_off x = 0) (iters_ (pack b))) /\
  map it_seq (iters_ (pack (End m containers))) = containers /\
  Forall (fun x => it_off x = L) (iters_ (pack (End m containers))).
Proof.
  intros Hne HL. split.
  { destruct containers as [|c cs]; [congruence |].
    rewrite <- (HL c) by now left. unfold c_size. lia. }
  split.
  - exists (Iter_ctor (at_offset containers 0)).
    split; [now apply Begin_equal_lengths with L |].
    cbn. unfold at_offset. rewrite map_map. cbn. split; [apply map_id |].
    apply Forall_forall. intros x Hx.
    apply list_elem_of_In, in_map_iff in Hx as (c & <- & _). reflexivity.
  - rewrite (End_equal_lengths _ _ L HL). cbn. unfold at_offset.
    rewrite map_map. cbn. split; [apply map_id |].
    apply Forall_forall. intros x Hx.
    apply list_elem_of_In, in_map_iff in Hx as (c & <- & _). reflexivity.
Qed.

End BeginEnd.

(** *** Cursor arithmetic *)

Lemma to_int_id (z : Z) : is_int z -> to_int z = z.
Proof.
  unfold is_int, INT_MIN, INT_MAX, to_int. intros Hz.
  rewrite Z.mod_small by lia. lia.
Qed.

Lemma Iter_eta (it : Iter) : it = Iter_ctor (iters_ (pack it)).
Proof. destruct it as [[iters]]. reflexivity. Qed.

Lemma synchronized_eq (containers : list handle) (k : Z) (it : Iter) :
  synchronized containers k it <-> it = Iter_ctor (at_offset containers k).
Proof.
  unfold synchronized. split.
  - intros H. now rewrite (Iter_eta it), H.
  - intros ->. reflexivity.
Qed.

Lemma apply_all_advance (containers : list handle) (k n : Z) :
  apply_all (std_advance n) (at_offset containers k) = at_offset containers (k + n).
Proof. unfold apply_all, at_offset. now rewrite map_map. Qed.

Lemma apply_all_inc (containers : list handle) (k : Z) :
  apply_all it_inc (at_offset containers k) = at_offset containers (k + 1).
Proof. unfold apply_all, at_offset. now rewrite map_map. Qed.

Lemma apply_all_dec (containers : list handle) (k : Z) :
  apply_all it_dec (at_offset containers k) = at_offset containers (k - 1).
Proof. unfold apply_all, at_offset. now rewrite map_map. Qed.

Lemma preinc_synchronized (containers : list handle) (k : Z) (it : Iter) :
  synchronized containers k it -> synchronized containers (k + 1) (Iter_preinc it).
Proof.
  unfold synchronized. intros H. cbn. rewrite H. apply apply_all_inc.
Qed.

Lemma plus_assign_synchronized (containers : list handle) (k shift : Z) (it : Iter) :
  synchronized containers k it ->
  synchronized containers (k + shift) (Iter_plus_assign it shift).
Proof.
  unfold synchronized. intros H. cbn. rewrite H. apply apply_all_advance.
Qed.

Lemma iter_preinc_synchronized (containers : list handle) (k : Z) (it : Iter) (n : nat) :
  synchronized containers k it ->
  synchronized containers (k + Z.of_nat n) (Nat.iter n Iter_preinc it).
Proof.
  intros H. induction n as [|n IH].
  - now rewrite Z.add_0_r.
  - rewrite Nat.iter_succ, Nat2Z.inj_succ.
    replace (k + Z.succ (Z.of_nat n)) with (k + Z.of_nat n + 1) by lia.
    now apply preinc_synchronized.
Qed.

Lemma iter_preinc_begin (containers : list handle) (k : Z) :
  0 <= k ->
  Nat.iter (Z.to_nat k) Iter_preinc (Iter_ctor (at_offset containers 0))
  = Iter_ctor (at_offset containers k).
Proof.
  intros Hk. apply synchronized_eq.
  pose proof (iter_preinc_synchronized containers 0
                (Iter_ctor (at_offset containers 0)) (Z.to_nat k) eq_refl) as Hinc.
  now rewrite Z2Nat.id in Hinc by assumption.
Qed.

(** C5.  Pre-increment, pre-decrement, offset-add and in-place offset-add
    keep the components of a cursor synchronized: when every component is
    [k] past the start of its own container before the call, every component
    is [k + 1], [k - 1], [k + shift] past it afterwards, none left behind. *)
Theorem C5_synchronized_preserved (containers : list handle) (k : Z) (it : Iter) :
  synchronized containers k it ->
  synchronized containers (k + 1) (Iter_preinc it) /\
  synchronized containers (k - 1) (Iter_predec it) /\
  (forall shift : Z,
      synchronized containers (k + shift) (Iter_plus it shift) /\
      synchronized containers (k + shift) (Iter_plus_assign it shift)).
Proof.
  intros H. split; [now apply preinc_synchronized |]. split.
  - unfold synchronized in *. cbn. rewrite H. apply apply_all_dec.
  - intros shift. split; now apply plus_assign_synchronized.
Qed.

Section Advance.
Context {V : Type}.
Implicit Types (m : @memory V) (containers : list handle).

(** C7, amended.  For containers of equal length [L] and every [k] in
    [0, L] that an [int] can hold, [k] pre-increments of the begin cursor
    give the position tuple of one [cursor + k], and of one [cursor += k]. *)
Theorem C7_increments_equal_offset_add m containers (L k : Z) (b : Iter) :
  Begin m containers = Return b ->
  (forall c, In c containers -> c_size m c = L) ->
  0 <= k <= L ->
  k <= INT_MAX ->
  Nat.iter (Z.to_nat k) Iter_preinc b = Iter_plus b (to_int k) /\
  Nat.iter (Z.to_nat k) Iter_preinc b = Iter_plus_assign b (to_int k).
Proof.
  intros Hb _ Hk Hint.
  apply Begin_returns in Hb as (_ & -> & _).
  rewrite to_int_id by (unfold is_int, INT_MIN; lia).
  rewrite iter_preinc_begin by lia.
  pose proof (plus_assign_synchronized containers 0 k
                (Iter_ctor (at_offset containers 0)) eq_refl) as Hadd.
  apply synchronized_eq in Hadd.
  unfold Iter_plus. rewrite Hadd. split; reflexivity.
Qed.

(** C8.  For a non-empty group of containers of equal length [L], the begin
    cursor pre-incremented [L] times compares equal, under [Iter]'s
    [operator==], to the cursor returned by [End]. *)
Theorem C8_begin_advanced_equals_end m containers (L : Z) :
  containers <> [] ->
  (forall c, In c containers -> c_size m c = L) ->
  exists b, Begin m containers = Return b /\
            Iter_eq (Nat.iter (Z.to_nat L) Iter_preinc b) (End m containers) = true.
Proof.
  intros Hne HL. exists (Iter_ctor (at_offset containers 0)).
  split; [now apply Begin_equal_lengths with L |].
  assert (0 <= L) as HL0.
  { destruct containers as [|c cs]; [congruence |].
    rewrite <- (HL c) by now left. unfold c_size. lia. }
  rewrite (iter_preinc_begin containers L HL0), (End_equal_lengths _ _ L HL).
  unfold Iter_eq. cbn.
  clear. induction containers as [|c cs IH]; [reflexivity |].
  cbn. unfold it_eqb at 1. cbn. now rewrite Nat.eqb_refl, Z.eqb_refl.
Qed.

End Advance.

(** C9.  [lhs - rhs] is the difference of the offsets of the first components
    alone, whatever the other components are; for two synchronized cursors
    over one group it is the difference of their offsets, which is also the
    difference at every other component. *)
Theorem C9_difference_first_component
    (containers : list handle) (a b : Z) (lhs rhs : Iter)
    (p q : iterator) (ps qs : Iterators) :
  synchronized containers a lhs ->
  synchronized containers b rhs ->
  iters_ (pack lhs) = p :: ps ->
  iters_ (pack rhs) = q :: qs ->
  Iter_minus lhs rhs = Return (it_off p - it_off q) /\
  (forall ps' qs' : Iterators,
      Iter_minus (Iter_ctor (p :: ps')) (Iter_ctor (q :: qs')) =
      Return (it_off p - it_off q)) /\
  it_off p - it_off q = a - b /\
  (forall (i : nat) (x y : iterator),
      iters_ (pack lhs) !! i = Some x -> iters_ (pack rhs) !! i = Some y ->
      it_diff x y = Return (a - b)).
Proof.
  unfold synchronized. intros Hl Hr Hp Hq.
  assert (exists c, p = mkIt c a /\ q = mkIt c b) as (c & -> & ->).
  { rewrite Hl in Hp. rewrite Hr in Hq.
    destruct containers as [|c cs]; [discriminate |].
    exists c. cbn in Hp, Hq. split; congruence. }
  assert (it_diff (mkIt c a) (mkIt c b) = Return (a - b)) as Hd.
  { unfold it_diff. cbn. now rewrite Nat.eqb_refl. }
  split; [|split; [|split]].
  - unfold Iter_minus. now rewrite Hp, Hq.
  - intros ps' qs'. exact Hd.
  - reflexivity.
  - intros i x y. rewrite Hl, Hr. unfold at_offset.
    intros Hx Hy.
    apply list_lookup_fmap_Some in Hx as (cx & -> & Hcx).
    apply list_lookup_fmap_Some in Hy as (cy & -> & Hcy).
    assert (cx = cy) as -> by congruence.
    unfold it_diff. cbn. now rewrite Nat.eqb_refl.
Qed.

(** *** Swap *)

Section Swap.
Context {V : Type}.
Implicit Types (m : @memory V) (containers : list handle).

Lemma it_star_in_range m (c : handle) (k : Z) :
  0 <= k < c_size m c ->
  it_star m (mkIt c k) = Return (mkRef c (Z.to_nat k)).
Proof.
  intros Hk. unfold it_star. cbn.
  destruct (Z.leb_spec 0 k); [|lia].
  destruct (Z.ltb_spec k (c_size m c)); [|lia]. reflexivity.
Qed.

Lemma load_in_range m (c : handle) (k : Z) :
  0 <= k < c_size m c ->
  exists v, m c !! Z.to_nat k = Some v /\ load m (mkRef c (Z.to_nat k)) = Return v.
Proof.
  intros Hk. unfold load. cbn.
  destruct (m c !! Z.to_nat k) as [v|] eqn:Hv; [eauto |].
  apply lookup_ge_None in Hv. unfold c_size in Hk. lia.
Qed.

Lemma std_iter_swap_spec m (c : handle) (a b : Z) :
  0 <= a < c_size m c ->
  0 <= b < c_size m c ->
  exists m1,
    std_iter_swap (mkIt c a) (mkIt c b) m = Return m1 /\
    exchanged (Z.to_nat a) (Z.to_nat b) (m c) (m1 c) /\
    (forall c', c' <> c -> m1 c' = m c').
Proof.
  intros Ha Hb. unfold std_iter_swap.
  rewrite !it_star_in_range by assumption. cbn.
  destruct (load_in_range m c a Ha) as (x & Hx & Hlx).
  destruct (load_in_range m c b Hb) as (y & Hy & Hly).
  unfold std_swap. rewrite Hlx, Hly. cbn.
  eexists. split; [reflexivity |].
  pose proof (lookup_lt_Some _ _ _ Hx) as Hia.
  pose proof (lookup_lt_Some _ _ _ Hy) as Hib.
  split.
  - unfold assign. cbn. rewrite !decide_True by reflexivity.
    unfold exchanged. rewrite !length_insert. split; [reflexivity |].
    split; [|split].
    + destruct (decide (Z.to_nat a = Z.to_nat b)) as [Heq | Hne].
      * rewrite Heq. rewrite list_lookup_insert_eq by now rewrite length_insert.
        rewrite Heq in Hx. congruence.
      * rewrite list_lookup_insert_ne by congruence.
        rewrite list_lookup_insert_eq by assumption. congruence.
    + rewrite list_lookup_insert_eq by now rewrite length_insert. congruence.
    + intros k Hka Hkb. now rewrite !list_lookup_insert_ne by congruence.
  - intros c' Hc'. unfold assign. cbn. now rewrite !decide_False by assumption.
Qed.

Lemma at_offset_lookup containers (k : Z) (i : nat) (c : handle) :
  containers !! i = Some c -> at_offset containers k !! i = Some (mkIt c k).
Proof.
  intros Hc. unfold at_offset. apply list_lookup_fmap_Some. now exists c.
Qed.

Lemma apply_binary_iter_swap containers (a b : Z) :
  NoDup containers ->
  forall order : eval_order,
    NoDup order ->
    (forall i, In i order -> (i < length containers)%nat) ->
    forall m,
      (forall c, In c containers -> 0 <= a < c_size m c /\ 0 <= b < c_size m c) ->
      exists m',
        apply_binary_ order
          (fun p q m0 => let* m1 := std_iter_swap p q m0 in Return (p, q, m1))
          (at_offset containers a) (at_offset containers b) m
        = Return (at_offset containers a, at_offset containers b, m') /\
        (forall i c, In i order -> containers !! i = Some c ->
                     exchanged (Z.to_nat a) (Z.to_nat b) (m c) (m' c)) /\
        (forall c, (forall i, In i order -> containers !! i <> Some c) -> m' c = m c).
Proof.
  intros Hcs. induction order as [|i order IH]; intros Hnd Hlt m Hrange.
  - exists m. cbn. split; [reflexivity |]. split; [intros i c [] | reflexivity].
  - apply NoDup_cons in Hnd as [Hi Hnd]. rewrite list_elem_of_In in Hi.
    destruct (lookup_lt_is_Some_2 containers i) as [c Hc]; [apply Hlt; now left |].
    assert (In c containers) as Hcin.
    { apply list_elem_of_In, list_elem_of_lookup. now exists i. }
    destruct (Hrange c Hcin) as [Ha Hb].
    destruct (std_iter_swap_spec m c a b Ha Hb) as (m1 & Hswap & Hex & Hframe).
    assert (forall c', c_size m1 c' = c_size m c') as Hsize.
    { intros c'. unfold c_size. destruct (decide (c' = c)) as [-> | Hne].
      - now destruct Hex as [-> _].
      - now rewrite Hframe. }
    destruct (IH Hnd (fun j Hj => Hlt j (or_intror Hj)) m1) as (m' & Hrest & Hin & Hout).
    { intros c' Hc'. rewrite Hsize. now apply Hrange. }
    assert (forall j, In j order -> containers !! j <> Some c) as Hfresh.
    { intros j Hj Hjc. apply Hi.
      now rewrite (NoDup_lookup containers i j c Hcs Hc Hjc). }
    exists m'. cbn [apply_binary_].
    rewrite (at_offset_lookup containers a i c Hc),
      (at_offset_lookup containers b i c Hc).
    rewrite Hswap. cbn [bind].
    unfold Iterators. rewrite !list_insert_id by now apply at_offset_lookup.
    split; [exact Hrest |]. split.
    + intros j c' [<- | Hj] Hc'.
      * assert (c' = c) as -> by congruence. now rewrite (Hout c Hfresh).
      * rewrite <- (Hframe c'); [now apply (Hin j) |].
        intros ->. now apply (Hfresh j).
    + intros c' Hc'. rewrite Hout by (intros j Hj; apply Hc'; now right).
      apply Hframe. intros ->. now apply (Hc' i); [left |].
Qed.

Lemma eval_order_NoDup (N : nat) (order : eval_order) :
  is_eval_order N order -> NoDup order.
Proof. unfold is_eval_order. intros H. rewrite H. apply NoDup_seq. Qed.

Lemma eval_order_In (N : nat) (order : eval_order) (i : nat) :
  is_eval_order N order -> (In i order <-> (i < N)%nat).
Proof.
  unfold is_eval_order. intros H.
  rewrite <- list_elem_of_In, H, list_elem_of_In, in_seq. lia.
Qed.

(** What [swap] does where the compiler grants it the access to
    [apply_binary]: for two packs over one group of pairwise distinct
    containers at valid offsets, it exchanges the two rows and nothing
    else, in whatever order the calls of the pack expansion are evaluated. *)
Lemma IterPack_swap_at_offset (order : eval_order) m containers (a b : Z) :
  is_eval_order (length containers) order ->
  NoDup containers ->
  (forall c, In c containers -> 0 <= a < c_size m c /\ 0 <= b < c_size m c) ->
  exists m',
    IterPack_swap nested_friend_granted order (mkPack (at_offset containers a))
                  (mkPack (at_offset containers b)) m
    = Return (mkPack (at_offset containers a), mkPack (at_offset containers b), m') /\
    (forall c, In c containers -> exchanged (Z.to_nat a) (Z.to_nat b) (m c) (m' c)) /\
    (forall c, ~ In c containers -> m' c = m c).
Proof.
  intros Horder Hnd Hrange.
  destruct (apply_binary_iter_swap containers a b Hnd order
              (eval_order_NoDup _ _ Horder)
              (fun i Hi => proj1 (eval_order_In _ _ i Horder) Hi) m Hrange)
    as (m' & Hrun & Hin & Hout).
  exists m'. unfold IterPack_swap, apply_binary. cbn [iters_]. rewrite Hrun.
  cbn [bind]. split; [reflexivity |]. split.
  - intros c Hc. apply list_elem_of_In, list_elem_of_lookup in Hc as [i Hi].
    apply (Hin i c); [|exact Hi].
    apply (eval_order_In _ _ i Horder). now apply lookup_lt_Some in Hi.
  - intros c Hc. apply Hout. intros i _ Hi. apply Hc.
    apply list_elem_of_In, list_elem_of_lookup. now exists i.
Qed.

Lemma IterPack_swap_denied (order : eval_order) (lhs rhs : IterPack) m :
  IterPack_swap nested_friend_denied order lhs rhs m = IllFormed.
Proof. reflexivity. Qed.

End Swap.

(** C3.  [swap] is a friend of the nested class [IterPack] and calls
    [apply_binary], a private member of [Iter]: where a friend of a nested
    class is denied the private members of the enclosing class, as under
    g++, no call of [swap] compiles, and for the cursors at offsets 0 and 2
    of the two three-element containers nothing is exchanged.  Where the
    access is granted, the same call exchanges 30 with 20 and 7 with 9 and
    leaves the third container alone, in either order of evaluation. *)
Theorem C3_swap_ill_formed :
  (forall (V : Type) (order : eval_order) (lhs rhs : IterPack) (m : @memory V),
      IterPack_swap nested_friend_denied order lhs rhs m = IllFormed) /\
  (forall order : eval_order,
      IterPack_swap nested_friend_denied order (mkPack (at_offset [0; 1]%nat 0))
                    (mkPack (at_offset [0; 1]%nat 2)) mem3 = IllFormed) /\
  (exists m' : @memory Z,
      IterPack_swap nested_friend_granted [0; 1]%nat (mkPack (at_offset [0; 1]%nat 0))
                    (mkPack (at_offset [0; 1]%nat 2)) mem3
      = Return (mkPack (at_offset [0; 1]%nat 0), mkPack (at_offset [0; 1]%nat 2), m') /\
      m' 0%nat = [20; 10; 30] /\ m' 1%nat = [9; 8; 7] /\ m' 2%nat = [1; 2]) /\
  (exists m' : @memory Z,
      IterPack_swap nested_friend_granted [1; 0]%nat (mkPack (at_offset [0; 1]%nat 0))
                    (mkPack (at_offset [0; 1]%nat 2)) mem3
      = Return (mkPack (at_offset [0; 1]%nat 0), mkPack (at_offset [0; 1]%nat 2), m') /\
      m' 0%nat = [20; 10; 30] /\ m' 1%nat = [9; 8; 7] /\ m' 2%nat = [1; 2]).
Proof.
  split; [intros V order lhs rhs m; apply IterPack_swap_denied |].
  split; [intros order; apply IterPack_swap_denied |].
  split; eexists; repeat split.
Qed.

(** *** Position comparisons and value comparisons *)

Lemma tuple_eq_positions (containers : list handle) (a b : Z) :
  tuple_eq it_eqb (at_offset containers a) (at_offset containers b) =
  match containers with [] => true | _ :: _ => a =? b end.
Proof.
  induction containers as [|c cs IH]; [reflexivity |].
  cbn [at_offset map tuple_eq]. unfold at_offset in IH. rewrite IH.
  unfold it_eqb. cbn. rewrite Nat.eqb_refl.
  destruct cs, (a =? b); reflexivity.
Qed.

Lemma tuple_lt_positions (containers : list handle) (a b : Z) :
  tuple_lt it_ltb (at_offset containers a) (at_offset containers b) =
  match containers with [] => false | _ :: _ => a <? b end.
Proof.
  induction containers as [|c cs IH]; [reflexivity |].
  cbn [at_offset map tuple_lt]. unfold at_offset in IH. rewrite IH.
  unfold it_ltb. cbn.
  destruct cs, (a <? b), (b <? a); reflexivity.
Qed.

Section tuple_facts.
Context {A : Type} (lt eq : A -> A -> bool).

(** [tuple_lt] is the lexicographic order: it holds exactly when, at the
    first index where the components are not equivalent, the left one is
    the smaller. *)
Lemma tuple_lt_lexicographic (t u : list A) :
  tuple_lt lt t u = true <->
  exists (i : nat) (x y : A),
    t !! i = Some x /\ u !! i = Some y /\ lt x y = true /\
    (forall (j : nat) (x' y' : A),
        (j < i)%nat -> t !! j = Some x' -> u !! j = Some y' ->
        lt x' y' = false /\ lt y' x' = false).
Proof.
  revert u. induction t as [|x0 t IH]; intros u.
  - cbn. split; [discriminate | intros (i & x & y & Hx & _); discriminate].
  - destruct u as [|y0 u].
    { cbn. split; [discriminate | intros (i & x & y & _ & Hy & _); discriminate]. }
    cbn [tuple_lt]. rewrite orb_true_iff, andb_true_iff, negb_true_iff, IH.
    split.
    + intros [H0 | [H0 (i & x & y & Hx & Hy & Hlt & Hbefore)]].
      * exists 0%nat, x0, y0. split; [reflexivity |]. split; [reflexivity |].
        split; [exact H0 |]. intros j x' y' Hj. lia.
      * destruct (lt x0 y0) eqn:Hxy.
        { exists 0%nat, x0, y0. split; [reflexivity |]. split; [reflexivity |].
          split; [exact Hxy |]. intros j x' y' Hj. lia. }
        exists (S i), x, y. split; [exact Hx |]. split; [exact Hy |].
        split; [exact Hlt |]. intros [|j] x' y' Hj Hx' Hy'; cbn in Hx', Hy'.
        { split; congruence. }
        apply (Hbefore j); [lia | assumption | assumption].
    + intros (i & x & y & Hx & Hy & Hlt & Hbefore).
      destruct i as [|i]; cbn in Hx, Hy.
      * left. congruence.
      * right. destruct (Hbefore 0%nat x0 y0) as [_ H0];
          [lia | reflexivity | reflexivity |].
        split; [exact H0 |]. exists i, x, y.
        split; [exact Hx |]. split; [exact Hy |]. split; [exact Hlt |].
        intros j x' y' Hj Hx' Hy'.
        apply (Hbefore (S j)); [lia | assumption | assumption].
Qed.

Lemma tuple_eq_componentwise (t u : list A) :
  length t = length u ->
  (tuple_eq eq t u = true <->
   forall (i : nat) (x y : A), t !! i = Some x -> u !! i = Some y -> eq x y = true).
Proof.
  revert u. induction t as [|x0 t IH]; intros [|y0 u] Hlen; try discriminate.
  - cbn. split; [intros _ i x y Hx; discriminate | reflexivity].
  - cbn [tuple_eq]. rewrite andb_true_iff, IH by (cbn in Hlen; lia). split.
    + intros [H0 Hrest] [|i] x y Hx Hy; cbn in Hx, Hy; [congruence | eauto].
    + intros H. split; [now apply (H 0%nat) |].
      intros i x y Hx Hy. now apply (H (S i)).
Qed.
End tuple_facts.

Section Values.
Context {V : Type} (v_lt v_eq : V -> V -> bool).
Implicit Types (m : @memory V) (containers : list handle).

Lemma deref_c_at_offset m containers (k : Z) :
  (forall c, In c containers -> 0 <= k < c_size m c) ->
  IterPack_deref_c m (mkPack (at_offset containers k)) =
  Return (map (fun c => mkRef c (Z.to_nat k)) containers).
Proof.
  unfold IterPack_deref_c, IterPack_deref_c_, std_forward_as_tuple. cbn [iters_].
  induction containers as [|c cs IH]; intros Hrange; [reflexivity |].
  cbn [at_offset map collect].
  rewrite it_star_in_range by (apply Hrange; now left). cbn [bind].
  unfold at_offset in IH. rewrite IH by (intros c' Hc'; apply Hrange; now right).
  reflexivity.
Qed.

Lemma load_all_at_offset m containers (k : Z) :
  (forall c, In c containers -> 0 <= k < c_size m c) ->
  exists vs,
    Forall2 (fun c v => m c !! Z.to_nat k = Some v) containers vs /\
    load_all m (map (fun c => mkRef c (Z.to_nat k)) containers) = Return vs.
Proof.
  unfold load_all.
  induction containers as [|c cs IH]; intros Hrange.
  - exists []. split; [constructor | reflexivity].
  - destruct (load_in_range m c k) as (v & Hv & Hload); [apply Hrange; now left |].
    destruct IH as (vs & Hvs & Hloads); [intros c' Hc'; apply Hrange; now right |].
    exists (v :: vs). split; [now constructor |].
    cbn [map collect]. rewrite Hload. cbn [bind]. rewrite Hloads. reflexivity.
Qed.

(** C2.  The comparisons of two cursors compare positions: for two
    synchronized cursors over one group they are the comparisons of the two
    offsets, whatever the containers hold.  The comparisons of two
    dereferenced packs compare the pointed-to values: [operator<] is the
    lexicographic order on the two tuples of elements, decided at the first
    container whose elements are not equivalent, and [operator==] holds
    when the elements agree in every container. *)
Theorem C2_position_and_value_comparisons m containers (a b : Z) (A B : Iter) :
  containers <> [] ->
  synchronized containers a A ->
  synchronized containers b B ->
  (forall c, In c containers -> 0 <= a < c_size m c /\ 0 <= b < c_size m c) ->
  (Iter_eq A B = (a =? b) /\ Iter_ne A B = negb (a =? b) /\
   Iter_lt A B = (a <? b) /\ Iter_le A B = (a <=? b) /\
   Iter_gt A B = (b <? a) /\ Iter_ge A B = (b <=? a)) /\
  exists va vb : list V,
    Forall2 (fun c v => m c !! Z.to_nat a = Some v) containers va /\
    Forall2 (fun c v => m c !! Z.to_nat b = Some v) containers vb /\
    IterPack_lt v_lt m (pack A) (pack B) = Return (tuple_lt v_lt va vb) /\
    IterPack_eq v_eq m (pack A) (pack B) = Return (tuple_eq v_eq va vb) /\
    (tuple_lt v_lt va vb = true <->
     exists (i : nat) (x y : V),
       va !! i = Some x /\ vb !! i = Some y /\ v_lt x y = true /\
       (forall (j : nat) (x' y' : V),
           (j < i)%nat -> va !! j = Some x' -> vb !! j = Some y' ->
           v_lt x' y' = false /\ v_lt y' x' = false)) /\
    (tuple_eq v_eq va vb = true <->
     forall (i : nat) (x y : V),
       va !! i = Some x -> vb !! i = Some y -> v_eq x y = true).
Proof.
  intros Hne HA HB Hrange.
  apply synchronized_eq in HA, HB. subst A B. split.
  - unfold Iter_eq, Iter_ne, Iter_lt, Iter_le, Iter_gt, Iter_ge,
      tuple_ne, tuple_le, tuple_gt, tuple_ge.
    cbn [Iter_ctor pack iters_].
    rewrite tuple_eq_positions, !tuple_lt_positions.
    destruct containers as [|c cs]; [congruence |].
    rewrite (Z.leb_antisym b a), (Z.leb_antisym a b).
    repeat split; reflexivity.
  - destruct (load_all_at_offset m containers a) as (va & Hva & Hla);
      [intros c Hc; now apply Hrange |].
    destruct (load_all_at_offset m containers b) as (vb & Hvb & Hlb);
      [intros c Hc; now apply Hrange |].
    exists va, vb. split; [exact Hva |]. split; [exact Hvb |].
    unfold IterPack_lt, IterPack_eq. cbn [Iter_ctor pack].
    rewrite !deref_c_at_offset by (intros c Hc; now apply Hrange).
    cbn [bind]. rewrite Hla, Hlb. cbn [bind].
    split; [reflexivity |]. split; [reflexivity |].
    split; [apply tuple_lt_lexicographic |].
    apply tuple_eq_componentwise.
    apply Forall2_length in Hva, Hvb. congruence.
Qed.

End Values.

(** *** Dereferencing *)

Section Deref.
Context {V : Type}.
Implicit Types (m : @memory V) (containers : list handle).

Lemma IterPack_star_ill_formed m (this : IterPack) :
  IterPack_star m this = IllFormed.
Proof. reflexivity. Qed.

(** What the const overload of [deref_] yields, and what reading and
    assigning through its references do. *)
Lemma deref_c_reads_and_writes_in_place m containers (k : Z) :
  (forall c, In c containers -> 0 <= k < c_size m c) ->
  IterPack_deref_c m (mkPack (at_offset containers k)) =
  Return (map (fun c => mkRef c (Z.to_nat k)) containers) /\
  (forall c, In c containers ->
     (exists v, m c !! Z.to_nat k = Some v /\
                load m (mkRef c (Z.to_nat k)) = Return v) /\
     (forall w : V,
         assign m (mkRef c (Z.to_nat k)) w c = <[Z.to_nat k := w]> (m c) /\
         load (assign m (mkRef c (Z.to_nat k)) w) (mkRef c (Z.to_nat k)) = Return w /\
         (forall c', c' <> c -> assign m (mkRef c (Z.to_nat k)) w c' = m c'))).
Proof.
  intros Hrange. split; [now apply deref_c_at_offset |].
  intros c Hc. split; [apply load_in_range; now apply Hrange |].
  intros w. unfold assign, load. cbn. rewrite !decide_True by reflexivity.
  split; [reflexivity |]. split.
  - rewrite list_lookup_insert_eq; [reflexivity |].
    specialize (Hrange c Hc). unfold c_size in Hrange. lia.
  - intros c' Hc'. now rewrite decide_False.
Qed.

(** C10.  [Iter::operator*] returns a reference to the pack that is a
    member of the cursor: it creates no object and two calls give the same
    reference; read after the cursor was pre-incremented, a reference taken
    before denotes the elements at the new offset; and a copy of the
    dereferenced [IterPack] holds the cursor's positions, so that it denotes
    whatever the containers hold there at the time it is read. *)
Theorem C10_deref_is_own_pack m m' (h : objects) (this : address)
    containers (k : Z) :
  synchronized containers k (h this) ->
  (forall c, In c containers -> 0 <= k + 1 < c_size m c) ->
  (forall c, In c containers -> 0 <= k < c_size m' c) ->
  let view := snd (Iter_star this h) in
  let h1 := fst (Iter_star this h) in
  let h2 := fst (Iter_preinc_at this h1) in
  let copy := IterPack_copy h view in
  (h1 = h /\ view = pack_of this /\ snd (Iter_star this h1) = view) /\
  (read_pack h view = mkPack (at_offset containers k) /\
   read_pack h2 view = mkPack (at_offset containers (k + 1)) /\
   IterPack_deref_c m (read_pack h2 view) =
   Return (map (fun c => mkRef c (Z.to_nat (k + 1))) containers)) /\
  (iters_ copy = at_offset containers k /\
   exists vs : list V,
     Forall2 (fun c v => m' c !! Z.to_nat k = Some v) containers vs /\
     (let* refs := IterPack_deref_c m' copy in load_all m' refs) = Return vs).
Proof.
  intros Hsync Hm Hm'. cbn zeta. unfold Iter_star, Iter_preinc_at. cbn [fst snd].
  unfold synchronized in Hsync.
  split; [auto |]. split; [|split].
  - split.
    + unfold read_pack. destruct (h this) as [[iters]]. cbn in *. now subst.
    + assert (read_pack (update h this (Iter_preinc (h this))) (pack_of this)
              = mkPack (at_offset containers (k + 1))) as Hread.
      { unfold read_pack, update. rewrite decide_True by reflexivity.
        cbn. rewrite Hsync. now rewrite apply_all_inc. }
      split; [exact Hread |]. rewrite Hread. now apply deref_c_at_offset.
  - unfold IterPack_copy, read_pack. cbn. exact Hsync.
  - destruct (load_all_at_offset m' containers k Hm') as (vs & Hvs & Hload).
    exists vs. split; [exact Hvs |].
    unfold IterPack_copy, read_pack. cbn [iters_]. rewrite Hsync.
    rewrite deref_c_at_offset by assumption. cbn [bind]. exact Hload.
Qed.

End Deref.

(** C4.  [IterPack::operator*] cannot be instantiated: it calls the non-const
    [deref_], whose body is [std::forward<>(...)], and no overload of
    [std::forward] accepts that call.  For the cursor at offset 1 of the two
    three-element containers no tuple of references is produced, while the
    const [deref_], written with [std::forward_as_tuple], yields the
    references to the two current elements, 10 and 8. *)
Theorem C4_operator_star_ill_formed :
  (forall (V : Type) (m : @memory V) (this : IterPack),
      IterPack_star m this = IllFormed) /\
  IterPack_star mem3 (mkPack (at_offset [0; 1]%nat 1)) = IllFormed /\
  IterPack_deref_c mem3 (mkPack (at_offset [0; 1]%nat 1)) =
  Return [mkRef 0%nat 1%nat; mkRef 1%nat 1%nat] /\
  load_all mem3 [mkRef 0%nat 1%nat; mkRef 1%nat 1%nat] = Return [10; 8].
Proof.
  split; [intros V m this; apply IterPack_star_ill_formed |].
  repeat split; reflexivity.
Qed.

(** *** More elements than an [int] can count *)

Lemma mem_big_size (c : handle) : c_size mem_big c = 2 ^ 31.
Proof.
  unfold c_size, mem_big. rewrite length_replicate.
  apply Z2Nat.id. now apply Z.pow_nonneg.
Qed.

(** For two containers of 2^31 elements and [k = 2^31], which lies in
    [0, L]: 2^31 pre-increments of the begin cursor take every component to
    offset 2^31, but the [int] parameter of [operator+] and [operator+=]
    receives -2^31, and no value of an [int] gives that position. *)
Lemma C7_counterexample :
  exists b : Iter,
    Begin mem_big [0; 1]%nat = Return b /\
    (forall c, In c [0; 1]%nat -> c_size mem_big c = 2 ^ 31) /\
    0 <= 2 ^ 31 <= 2 ^ 31 /\
    Nat.iter (Z.to_nat (2 ^ 31)) Iter_preinc b <> Iter_plus b (to_int (2 ^ 31)) /\
    Nat.iter (Z.to_nat (2 ^ 31)) Iter_preinc b <> Iter_plus_assign b (to_int (2 ^ 31)) /\
    (forall shift : Z,
        is_int shift ->
        Nat.iter (Z.to_nat (2 ^ 31)) Iter_preinc b <> Iter_plus b shift).
Proof.
  exists (Iter_ctor (at_offset [0; 1]%nat 0)).
  split.
  { apply (Begin_equal_lengths mem_big [0; 1]%nat (2 ^ 31)); [discriminate |].
    intros c _. apply mem_big_size. }
  split; [intros c _; apply mem_big_size |].
  split; [split; [now apply Z.pow_nonneg | apply Z.le_refl] |].
  rewrite (iter_preinc_begin [0; 1]%nat (2 ^ 31) (Z.pow_nonneg 2 31 (Z.le_0_2))).
  split; [vm_compute; discriminate |].
  split; [vm_compute; discriminate |].
  intros shift Hshift Heq.
  unfold is_int, INT_MIN, INT_MAX in Hshift.
  injection Heq as Heq _. lia.
Qed.

(** *** A group that names one container twice *)

(** For the group made of container 0 twice, as in [Begin(x, x)], and the
    cursors at the valid offsets 0 and 2, where [swap] compiles: the two
    calls of [std::iter_swap] undo each other, so the elements 30 and 20 of
    the container are not exchanged. *)
Lemma swap_same_container_twice :
  forall order : eval_order,
    order = [0; 1]%nat \/ order = [1; 0]%nat ->
    exists m' : @memory Z,
      IterPack_swap nested_friend_granted order (mkPack (at_offset [0; 0]%nat 0))
                    (mkPack (at_offset [0; 0]%nat 2)) mem3
      = Return (mkPack (at_offset [0; 0]%nat 0), mkPack (at_offset [0; 0]%nat 2), m') /\
      m' 0%nat = [30; 10; 20] /\
      ~ exchanged 0 2 (mem3 0%nat) (m' 0%nat).
Proof.
  intros order [-> | ->];
    (eexists; split; [reflexivity |]; split; [reflexivity |]);
    intros (_ & H & _); cbn in H; discriminate.
Qed.

(** *** Instances *)

Lemma C1_witness :
  Begin mem3 [0; 1; 2]%nat = Throw LengthEqualityException /\
  (forall it : Iter, Begin mem3 [0; 1; 2]%nat <> Return it).
Proof.
  apply (C1_Begin_length_mismatch mem3 [0; 1; 2]%nat 0%nat 2%nat).
  - cbn. lia.
  - cbn. auto.
  - cbn. auto.
  - vm_compute. discriminate.
Defined.

Lemma mem3_sizes (c : handle) : In c [0; 1]%nat -> c_size mem3 c = 3.
Proof. intros [<- | [<- | []]]; reflexivity. Defined.

Lemma mem3_range (a b : Z) (c : handle) :
  0 <= a < 3 -> 0 <= b < 3 -> In c [0; 1]%nat ->
  0 <= a < c_size mem3 c /\ 0 <= b < c_size mem3 c.
Proof. intros Ha Hb Hc. rewrite (mem3_sizes c Hc). split; assumption. Defined.

Lemma NoDup_01 : NoDup [0; 1]%nat.
Proof. apply (bool_decide_unpack _). vm_compute. exact I. Defined.

Lemma C2_witness :
  (Iter_eq (Iter_ctor (at_offset [0; 1]%nat 0)) (Iter_ctor (at_offset [0; 1]%nat 1)) = false /\
   Iter_lt (Iter_ctor (at_offset [0; 1]%nat 0)) (Iter_ctor (at_offset [0; 1]%nat 1)) = true) /\
  IterPack_lt Z.ltb mem3 (mkPack (at_offset [0; 1]%nat 0)) (mkPack (at_offset [0; 1]%nat 1))
  = Return false.
Proof.
  destruct (C2_position_and_value_comparisons Z.ltb Z.eqb mem3 [0; 1]%nat 0 1
              (Iter_ctor (at_offset [0; 1]%nat 0))
              (Iter_ctor (at_offset [0; 1]%nat 1)))
    as [(Heq & _ & Hlt & _) _].
  - discriminate.
  - reflexivity.
  - reflexivity.
  - intros c Hc. apply mem3_range; [lia | lia | exact Hc].
  - split; [split; [exact Heq | exact Hlt] | reflexivity].
Defined.

Lemma C5_witness :
  synchronized [0; 1]%nat (1 + 1) (Iter_preinc (Iter_ctor (at_offset [0; 1]%nat 1))) /\
  synchronized [0; 1]%nat (1 - 1) (Iter_predec (Iter_ctor (at_offset [0; 1]%nat 1))) /\
  (forall shift : Z,
      synchronized [0; 1]%nat (1 + shift)
        (Iter_plus (Iter_ctor (at_offset [0; 1]%nat 1)) shift) /\
      synchronized [0; 1]%nat (1 + shift)
        (Iter_plus_assign (Iter_ctor (at_offset [0; 1]%nat 1)) shift)).
Proof.
  apply (C5_synchronized_preserved [0; 1]%nat 1 (Iter_ctor (at_offset [0; 1]%nat 1))).
  reflexivity.
Defined.

Lemma C6_witness :
  exists b : Iter,
    Begin mem3 [0; 1]%nat = Return b /\
    map it_seq (iters_ (pack b)) = [0; 1]%nat /\
    Forall (fun x => it_off x = 0) (iters_ (pack b)).
Proof.
  destruct (C6_Begin_End_equal_lengths mem3 [0; 1]%nat 3) as (_ & Hb & _).
  - discriminate.
  - exact mem3_sizes.
  - exact Hb.
Defined.

Lemma C7_witness :
  Nat.iter (Z.to_nat 2) Iter_preinc (Iter_ctor (at_offset [0; 1]%nat 0))
  = Iter_plus (Iter_ctor (at_offset [0; 1]%nat 0)) (to_int 2) /\
  Nat.iter (Z.to_nat 2) Iter_preinc (Iter_ctor (at_offset [0; 1]%nat 0))
  = Iter_plus_assign (Iter_ctor (at_offset [0; 1]%nat 0)) (to_int 2).
Proof.
  apply (C7_increments_equal_offset_add mem3 [0; 1]%nat 3 2
           (Iter_ctor (at_offset [0; 1]%nat 0))).
  - reflexivity.
  - exact mem3_sizes.
  - lia.
  - unfold INT_MAX. lia.
Defined.

Lemma C8_witness :
  exists b : Iter,
    Begin mem3 [0; 1]%nat = Return b /\
    Iter_eq (Nat.iter (Z.to_nat 3) Iter_preinc b) (End mem3 [0; 1]%nat) = true.
Proof.
  apply (C8_begin_advanced_equals_end mem3 [0; 1]%nat 3).
  - discriminate.
  - exact mem3_sizes.
Defined.

Lemma C9_witness :
  Iter_minus (Iter_ctor (at_offset [0; 1]%nat 2)) (Iter_ctor (at_offset [0; 1]%nat 1))
  = Return (2 - 1).
Proof.
  destruct (C9_difference_first_component [0; 1]%nat 2 1
              (Iter_ctor (at_offset [0; 1]%nat 2))
              (Iter_ctor (at_offset [0; 1]%nat 1))
              (mkIt 0%nat 2) (mkIt 0%nat 1) [mkIt 1%nat 2] [mkIt 1%nat 1])
    as (H & _); [reflexivity | reflexivity | reflexivity | reflexivity |].
  exact H.
Defined.

Lemma C10_witness :
  read_pack (fst (Iter_preinc_at 0%nat (fst (Iter_star 0%nat objs0))))
            (snd (Iter_star 0%nat objs0))
  = mkPack (at_offset [0; 1]%nat (0 + 1)).
Proof.
  destruct (C10_deref_is_own_pack mem3 mem3 objs0 0%nat [0; 1]%nat 0)
    as (_ & (_ & H & _) & _).
  - reflexivity.
  - intros c Hc. apply (mem3_range (0 + 1) 0); [lia | lia | exact Hc].
  - intros c Hc. apply (mem3_range 0 0); [lia | lia | exact Hc].
  - exact H.
Defined.

(** ** Further properties of [Iter.h] *)

(** *** [all_equal], [Begin] and [End] *)

Lemma all_equal_false (x : Z) (rest : list Z) :
  all_equal x rest = false -> exists y, In y rest /\ y <> x.
Proof.
  revert x. induction rest as [|y rest IH]; intros x; [discriminate |].
  rewrite all_equal_cons, andb_false_iff, Z.eqb_neq.
  intros [Hxy | Hrest].
  - exists y. split; [now left | congruence].
  - destruct (IH y Hrest) as (z & Hz & Hzy).
    destruct (Z.eq_dec y x) as [-> | Hne].
    + exists z. split; [now right | assumption].
    + exists y. split; [now left | assumption].
Qed.

(** X1.  [all_equal] compares neighbouring arguments only, and yet it is true
    exactly when every two of its arguments are equal; with one argument it
    is true. *)
Theorem X1_all_equal_iff_pairwise (x : Z) (rest : list Z) :
  all_equal x [] = true /\
  (all_equal x rest = true <->
   forall y z, In y (x :: rest) -> In z (x :: rest) -> y = z).
Proof.
  split; [reflexivity |]. rewrite all_equal_true. split.
  - intros H y z [<- | Hy] [<- | Hz].
    + reflexivity.
    + symmetry. now apply H.
    + now apply H.
    + rewrite (H y Hy). symmetry. now apply H.
  - intros H y Hy. apply H; [now right | now left].
Qed.

Section BeginEndMore.
Context {V : Type}.
Implicit Types (m : @memory V) (containers : list handle).

Lemma Begin_throws m containers :
  Begin m containers = Throw LengthEqualityException ->
  exists c1 c2, In c1 containers /\ In c2 containers /\ c_size m c1 <> c_size m c2.
Proof.
  unfold Begin. destruct containers as [|c cs]; [discriminate |].
  cbn [map]. destruct (all_equal _ _) eqn:Heq; [discriminate |]. intros _.
  apply all_equal_false in Heq as (y & Hy & Hne).
  apply in_map_iff in Hy as (c' & <- & Hc').
  exists c', c. split; [now right |]. split; [now left | assumption].
Qed.

Lemma Begin_mismatch m containers (c1 c2 : handle) :
  In c1 containers -> In c2 containers -> c_size m c1 <> c_size m c2 ->
  Begin m containers = Throw LengthEqualityException.
Proof.
  intros H1 H2 Hne. unfold Begin. destruct containers as [|c cs]; [destruct H1 |].
  cbn [map]. destruct (all_equal _ _) eqn:Heq; [|reflexivity].
  exfalso. apply Hne.
  assert (forall c', In c' (c :: cs) -> c_size m c' = c_size m c) as Hall.
  { intros c' [<- | Hc']; [reflexivity |].
    apply (proj1 (all_equal_true _ _) Heq). now apply in_map. }
  now rewrite (Hall c1 H1), (Hall c2 H2).
Qed.

(** X2.  What [Begin] does is decided by the sizes alone: it does not compile
    for no container, it throws [LengthEqualityException] exactly when two
    containers of the group differ in size, and otherwise, so for every
    single container and every group of equal sizes, it returns the cursor
    with every component at offset 0.  It has no other outcome. *)
Theorem X2_Begin_outcomes m containers :
  (Begin m containers = IllFormed <-> containers = []) /\
  (Begin m containers = Throw LengthEqualityException <->
   exists c1 c2, In c1 containers /\ In c2 containers /\ c_size m c1 <> c_size m c2) /\
  (Begin m containers = Return (Iter_ctor (at_offset containers 0)) <->
   containers <> [] /\
   forall c1 c2, In c1 containers -> In c2 containers -> c_size m c1 = c_size m c2) /\
  (forall c, Begin m [c] = Return (Iter_ctor (at_offset [c] 0))) /\
  (forall o, Begin m containers = o ->
             o = IllFormed \/ o = Throw LengthEqualityException \/
             o = Return (Iter_ctor (at_offset containers 0))).
Proof.
  split; [|split; [|split; [|split]]].
  - split; [|intros ->; reflexivity].
    unfold Begin. destruct containers as [|c cs]; [reflexivity |].
    cbn [map]. destruct (negb _); discriminate.
  - split; [apply Begin_throws |].
    intros (c1 & c2 & H1 & H2 & Hne).
    apply (Begin_mismatch m containers c1 c2 H1 H2 Hne).
  - split.
    + intros Hb. apply Begin_returns in Hb as (Hne & _ & L & HL).
      split; [assumption |]. intros c1 c2 H1 H2. now rewrite (HL c1), (HL c2).
    + intros [Hne Hall]. destruct containers as [|c cs]; [congruence |].
      apply Begin_equal_lengths with (c_size m c); [discriminate |].
      intros c' Hc'. apply Hall; [assumption | now left].
  - intros c. reflexivity.
  - intros o <-. unfold Begin. destruct containers as [|c cs]; [now left |].
    right. cbn [map]. destruct (all_equal _ _); [right | left]; reflexivity.
Qed.

End BeginEndMore.

Section EndMore.
Context {V : Type}.
Implicit Types (m : @memory V) (containers : list handle).

(** X3.  [End] checks nothing: component [i] of its cursor is at the size of
    container [i], so for a group in which two containers differ in size, the
    group on which [Begin] throws, it returns a cursor whose components are
    not synchronized at any offset. *)
Theorem X3_End_unvalidated m containers (c1 c2 : handle) :
  In c1 containers -> In c2 containers -> c_size m c1 <> c_size m c2 ->
  (forall (i : nat) (c : handle),
      containers !! i = Some c ->
      iters_ (pack (End m containers)) !! i = Some (mkIt c (c_size m c))) /\
  (forall k : Z, ~ synchronized containers k (End m containers)).
Proof.
  intros H1 H2 Hne. split.
  - intros i c Hc. cbn. apply list_lookup_fmap_Some. exists c. split; [reflexivity | exact Hc].
  - intros k Hk. unfold synchronized, at_offset in Hk. cbn in Hk.
    pose proof (proj1 map_ext_in_iff Hk) as Hext.
    apply Hne.
    pose proof (Hext c1 H1) as E1. pose proof (Hext c2 H2) as E2.
    unfold c_end in E1, E2. congruence.
Qed.

(** X4.  For a non-empty group of containers of equal length [L], the cursors
    of [Begin] and [End] delimit [L] positions: [End - Begin] is [L], the two
    compare equal exactly when the containers are empty, [Begin < End]
    exactly when they are not, and, where an [int] can hold [L],
    [Begin + L] is the cursor of [End]. *)
Theorem X4_Begin_End_range m containers (L : Z) :
  containers <> [] ->
  (forall c, In c containers -> c_size m c = L) ->
  exists b : Iter,
    Begin m containers = Return b /\
    Iter_minus (End m containers) b = Return L /\
    Iter_minus b (End m containers) = Return (- L) /\
    Iter_eq b (End m containers) = (L =? 0) /\
    Iter_ne b (End m containers) = negb (L =? 0) /\
    Iter_lt b (End m containers) = (0 <? L) /\
    (L <= INT_MAX -> Iter_plus b (to_int L) = End m containers).
Proof.
  intros Hne HL. exists (Iter_ctor (at_offset containers 0)).
  split; [now apply Begin_equal_lengths with L |].
  assert (0 <= L) as HL0.
  { destruct containers as [|c cs]; [congruence |].
    rewrite <- (HL c) by now left. unfold c_size. lia. }
  rewrite (End_equal_lengths _ _ L HL).
  unfold Iter_eq, Iter_ne, Iter_lt, tuple_ne. cbn [Iter_ctor pack iters_].
  rewrite tuple_eq_positions, tuple_lt_positions.
  destruct containers as [|c cs]; [congruence |].
  split; [|split; [|split; [|split; [|split]]]].
  - unfold Iter_minus, it_diff. cbn. rewrite Nat.eqb_refl. f_equal. lia.
  - unfold Iter_minus, it_diff. cbn. rewrite Nat.eqb_refl. reflexivity.
  - apply Z.eqb_sym.
  - now rewrite Z.eqb_sym.
  - reflexivity.
  - intros Hint. rewrite to_int_id by (unfold is_int, INT_MIN; lia).
    apply synchronized_eq.
    apply (plus_assign_synchronized (c :: cs) 0 L (Iter_ctor (at_offset (c :: cs) 0))).
    reflexivity.
Qed.

End EndMore.

(** *** Laws of the cursor arithmetic *)

Lemma apply_all_compose (f g : iterator -> iterator) (iters : Iterators) :
  apply_all g (apply_all f iters) = apply_all (fun x => g (f x)) iters.
Proof. unfold apply_all. apply map_map. Qed.

Lemma apply_all_id (f : iterator -> iterator) (iters : Iterators) :
  (forall x, f x = x) -> apply_all f iters = iters.
Proof.
  intros Hf. unfold apply_all. rewrite <- (map_id iters) at 2.
  apply map_ext. exact Hf.
Qed.

Lemma apply_all_ext (f g : iterator -> iterator) (iters : Iterators) :
  (forall x, f x = g x) -> apply_all f iters = apply_all g iters.
Proof. intros Hfg. unfold apply_all. now apply map_ext. Qed.

Lemma iterator_eq (x y : iterator) :
  it_seq x = it_seq y -> it_off x = it_off y -> x = y.
Proof. destruct x, y. cbn. now intros -> ->. Qed.

(** X5.  The cursor arithmetic obeys the laws of offsets, for every cursor,
    synchronized or not: [--] undoes [++] and [++] undoes [--], adding 0
    changes nothing, adding [j] and then [k] is adding [j + k] where an
    [int] can hold that sum, [++] is [+ 1] and [--] is [+ (-1)], [+=] leaves
    in [*this] the cursor that [+] returns, and no operation changes the
    number of components or the container a component points into. *)
Theorem X5_arithmetic_laws (it : Iter) (j k : Z) :
  Iter_predec (Iter_preinc it) = it /\
  Iter_preinc (Iter_predec it) = it /\
  Iter_plus it 0 = it /\
  (is_int (j + k) -> Iter_plus (Iter_plus it j) k = Iter_plus it (to_int (j + k))) /\
  Iter_preinc it = Iter_plus it 1 /\
  Iter_predec it = Iter_plus it (-1) /\
  Iter_plus_assign it k = Iter_plus it k /\
  map it_seq (iters_ (pack (Iter_preinc it))) = map it_seq (iters_ (pack it)) /\
  map it_seq (iters_ (pack (Iter_predec it))) = map it_seq (iters_ (pack it)) /\
  map it_seq (iters_ (pack (Iter_plus it k))) = map it_seq (iters_ (pack it)).
Proof.
  destruct it as [[iters]].
  unfold Iter_preinc, Iter_predec, Iter_plus, Iter_plus_assign. cbn [pack iters_].
  rewrite !apply_all_compose.
  repeat split.
  - do 2 f_equal. apply apply_all_id. intros x. apply iterator_eq; cbn; lia.
  - do 2 f_equal. apply apply_all_id. intros x. apply iterator_eq; cbn; lia.
  - do 2 f_equal. apply apply_all_id. intros x. apply iterator_eq; cbn; lia.
  - intros Hint. rewrite to_int_id by assumption.
    do 2 f_equal. apply apply_all_ext. intros x. apply iterator_eq; cbn; lia.
  - unfold apply_all. rewrite map_map. reflexivity.
  - unfold apply_all. rewrite map_map. reflexivity.
  - unfold apply_all. rewrite map_map. reflexivity.
Qed.

(** X6.  For every cursor with at least one component, [(it + k) - it] is
    [k] and [it - (it + k)] is [-k]: the difference undoes the offset-add. *)
Theorem X6_minus_after_plus (it : Iter) (k : Z) :
  iters_ (pack it) <> [] ->
  Iter_minus (Iter_plus it k) it = Return k /\
  Iter_minus it (Iter_plus it k) = Return (- k).
Proof.
  destruct it as [[[|p ps]]]; cbn [pack iters_]; [congruence |]. intros _.
  unfold Iter_minus, it_diff. cbn. rewrite Nat.eqb_refl.
  split; f_equal; lia.
Qed.

(** X7.  For two synchronized cursors over one non-empty group, [B - A]
    returns a distance [d] with [d = -(A - B)], and where an [int] can hold
    it, [A + d] is [B]: the offset-add undoes the difference. *)
Theorem X7_plus_after_minus (containers : list handle) (a b : Z) (A B : Iter) :
  containers <> [] ->
  synchronized containers a A ->
  synchronized containers b B ->
  exists d : Z,
    Iter_minus B A = Return d /\
    Iter_minus A B = Return (- d) /\
    (is_int d -> Iter_plus A (to_int d) = B).
Proof.
  intros Hne HA HB. apply synchronized_eq in HA, HB. subst A B.
  destruct containers as [|c cs]; [congruence |].
  exists (b - a). split; [|split].
  - unfold Iter_minus, it_diff. cbn. now rewrite Nat.eqb_refl.
  - unfold Iter_minus, it_diff. cbn. rewrite Nat.eqb_refl. f_equal. lia.
  - intros Hint. rewrite to_int_id by assumption.
    pose proof (plus_assign_synchronized (c :: cs) a (b - a)
                  (Iter_ctor (at_offset (c :: cs) a)) eq_refl) as Hadd.
    replace (a + (b - a)) with b in Hadd by lia.
    now apply synchronized_eq in Hadd.
Qed.

(** *** The position comparisons as relations *)

Lemma it_eqb_eq (x y : iterator) : it_eqb x y = true <-> x = y.
Proof.
  unfold it_eqb. rewrite andb_true_iff, Nat.eqb_eq, Z.eqb_eq. split.
  - intros [Hs Ho]. now apply iterator_eq.
  - intros ->. split; reflexivity.
Qed.

Lemma tuple_eq_it_eqb (t u : list iterator) : tuple_eq it_eqb t u = true <-> t = u.
Proof.
  revert u. induction t as [|x t IH]; intros [|y u]; cbn [tuple_eq];
    try (split; [discriminate | intros E; discriminate E]).
  - split; reflexivity.
  - rewrite andb_true_iff, it_eqb_eq, IH. split.
    + now intros [-> ->].
    + intros [= -> ->]. split; reflexivity.
Qed.

Section tuple_order.
Context {A : Type} (lt : A -> A -> bool).
Hypothesis lt_irrefl : forall x, lt x x = false.
Hypothesis lt_trans : forall x y z, lt x y = true -> lt y z = true -> lt x z = true.
Hypothesis lt_cotrans :
  forall x y z, lt x y = true -> lt x z = true \/ lt z y = true.

Lemma lt_asym (x y : A) : lt x y = true -> lt y x = false.
Proof.
  intros Hxy. destruct (lt y x) eqn:Hyx; [|reflexivity].
  rewrite <- (lt_irrefl x). symmetry. now apply lt_trans with y.
Qed.

Lemma tuple_lt_irrefl (t : list A) : tuple_lt lt t t = false.
Proof.
  induction t as [|x t IH]; [reflexivity |].
  cbn [tuple_lt]. now rewrite lt_irrefl, IH.
Qed.

Lemma tuple_lt_trans (t u v : list A) :
  tuple_lt lt t u = true -> tuple_lt lt u v = true -> tuple_lt lt t v = true.
Proof.
  revert u v. induction t as [|x t IH]; intros [|y u] [|z v]; cbn [tuple_lt];
    try discriminate.
  rewrite !orb_true_iff, !andb_true_iff, !negb_true_iff.
  intros [Hxy | [Hyx Htu]] [Hyz | [Hzy Huv]].
  - left. now apply lt_trans with y.
  - left. destruct (lt_cotrans x y z Hxy) as [H | H]; [exact H | congruence].
  - left. destruct (lt_cotrans y z x Hyz) as [H | H]; [congruence | exact H].
  - destruct (lt x z) eqn:Hxz; [now left | right]. split.
    + destruct (lt z x) eqn:Hzx; [|reflexivity].
      destruct (lt_cotrans z x y Hzx) as [H | H]; congruence.
    + now apply IH with u.
Qed.

Lemma tuple_lt_asym (t u : list A) : tuple_lt lt t u = true -> tuple_lt lt u t = false.
Proof.
  intros Htu. destruct (tuple_lt lt u t) eqn:Hut; [|reflexivity].
  rewrite <- (tuple_lt_irrefl t). symmetry. now apply tuple_lt_trans with u.
Qed.
End tuple_order.

Lemma it_ltb_irrefl (x : iterator) : it_ltb x x = false.
Proof. unfold it_ltb. apply Z.ltb_irrefl. Qed.

Lemma it_ltb_trans (x y z : iterator) :
  it_ltb x y = true -> it_ltb y z = true -> it_ltb x z = true.
Proof. unfold it_ltb. rewrite !Z.ltb_lt. lia. Qed.

Lemma it_ltb_cotrans (x y z : iterator) :
  it_ltb x y = true -> it_ltb x z = true \/ it_ltb z y = true.
Proof. unfold it_ltb. rewrite !Z.ltb_lt. lia. Qed.

(** X8.  For two cursors over one group of containers, synchronized or not,
    [Iter]'s [operator==] holds exactly when the two cursors have the same
    offset in every component, that is when they are the same cursor, and
    [operator!=] exactly when they differ in some component. *)
Theorem X8_Iter_eq_reflects (containers : list handle) (A B : Iter) :
  map it_seq (iters_ (pack A)) = containers ->
  map it_seq (iters_ (pack B)) = containers ->
  (Iter_eq A B = true <->
   map it_off (iters_ (pack A)) = map it_off (iters_ (pack B))) /\
  (Iter_eq A B = true <-> A = B) /\
  (Iter_ne A B = true <-> A <> B).
Proof.
  intros HA HB.
  assert (Iter_eq A B = true <-> A = B) as Heq.
  { unfold Iter_eq. rewrite tuple_eq_it_eqb.
    destruct A as [[t]], B as [[u]]. cbn. split; [now intros -> | now intros [= ->]]. }
  split; [|split; [exact Heq |]].
  - rewrite Heq. clear Heq. split; [now intros -> |].
    destruct A as [[t]], B as [[u]]. cbn in *. intros Hoff. do 2 f_equal.
    subst containers. revert u HB Hoff.
    induction t as [|x t IH]; intros [|y u]; cbn; try discriminate; [reflexivity |].
    intros [= Hs Hrest] [= Ho Hoffs]. f_equal; [now apply iterator_eq | now apply IH].
  - unfold Iter_ne, tuple_ne. fold (Iter_eq A B). rewrite negb_true_iff.
    destruct (Iter_eq A B); split; intros H.
    + discriminate.
    + exfalso. apply H. now apply Heq.
    + intros E. apply Heq in E. discriminate.
    + reflexivity.
Qed.

(** X9.  On the cursors over one group of containers, synchronized or not,
    [Iter]'s [operator<] is a strict order: no cursor is before itself, two
    cursors are not before each other, and it is transitive; [>], [<=] and
    [>=] are its converse and the two negations. *)
Theorem X9_Iter_lt_strict_order (containers : list handle) (A B C : Iter) :
  map it_seq (iters_ (pack A)) = containers ->
  map it_seq (iters_ (pack B)) = containers ->
  map it_seq (iters_ (pack C)) = containers ->
  Iter_lt A A = false /\
  (Iter_lt A B = true -> Iter_lt B A = false) /\
  (Iter_lt A B = true -> Iter_lt B C = true -> Iter_lt A C = true) /\
  Iter_gt A B = Iter_lt B A /\
  Iter_le A B = negb (Iter_lt B A) /\
  Iter_ge A B = negb (Iter_lt A B).
Proof.
  intros _ _ _. unfold Iter_lt, Iter_gt, Iter_le, Iter_ge.
  split; [apply tuple_lt_irrefl, it_ltb_irrefl |].
  split; [apply tuple_lt_asym;
          [apply it_ltb_irrefl | apply it_ltb_trans | apply it_ltb_cotrans] |].
  split; [apply tuple_lt_trans; [apply it_ltb_trans | apply it_ltb_cotrans] |].
  repeat split.
Qed.

(** *** Swap, again *)

Section exchanged_facts.
Context {V : Type}.
Implicit Types (old mid new : list V) (i j : nat).

Lemma exchanged_sym i j old new : exchanged i j old new -> exchanged j i old new.
Proof.
  intros (Hlen & Hi & Hj & Hk). repeat split; try assumption.
  intros k Hkj Hki. now apply Hk.
Qed.

Lemma exchanged_unique i j old new1 new2 :
  exchanged i j old new1 -> exchanged i j old new2 -> new1 = new2.
Proof.
  intros (_ & Hi1 & Hj1 & Hk1) (_ & Hi2 & Hj2 & Hk2). apply list_eq. intros k.
  destruct (decide (k = i)) as [-> | Hki]; [congruence |].
  destruct (decide (k = j)) as [-> | Hkj]; [congruence |].
  now rewrite Hk1, Hk2.
Qed.

Lemma exchanged_twice i j old mid new :
  exchanged i j old mid -> exchanged i j mid new -> new = old.
Proof.
  intros (_ & Hi1 & Hj1 & Hk1) (_ & Hi2 & Hj2 & Hk2). apply list_eq. intros k.
  destruct (decide (k = i)) as [-> | Hki]; [congruence |].
  destruct (decide (k = j)) as [-> | Hkj]; [congruence |].
  now rewrite Hk2, Hk1.
Qed.

Lemma exchanged_same i old new : exchanged i i old new -> new = old.
Proof.
  intros (_ & Hi & _ & Hk). apply list_eq. intros k.
  destruct (decide (k = i)) as [-> | Hki]; [assumption | now apply Hk].
Qed.

Lemma exchanged_Permutation i j old new : exchanged i j old new -> Permutation new old.
Proof.
  intros (Hlen & Hi & Hj & Hk). apply Permutation_inj. split; [exact Hlen |].
  exists (fun k => if decide (k = i) then j else if decide (k = j) then i else k).
  split.
  - intros k1 k2. repeat case_decide; intros; subst; congruence.
  - intros k. repeat case_decide; subst; auto.
Qed.
End exchanged_facts.

Section SwapMore.
Context {V : Type}.
Implicit Types (m : @memory V) (containers : list handle).

Lemma swapped_sizes m m' containers (i j : nat) :
  (forall c, In c containers -> exchanged i j (m c) (m' c)) ->
  (forall c, ~ In c containers -> m' c = m c) ->
  forall c, c_size m' c = c_size m c.
Proof.
  intros Hin Hout c. unfold c_size.
  destruct (in_dec Nat.eq_dec c containers) as [Hc | Hc].
  - now destruct (Hin c Hc) as [-> _].
  - now rewrite (Hout c Hc).
Qed.

(** X10.  Where [swap] is denied the access to [apply_binary], as under g++,
    the call does not compile.  Where it is granted, swapping the same two
    cursors twice restores every container: for two cursors over a group of
    pairwise distinct containers at valid offsets, the second
    [swap( *A, *B)] returns, and leaves every container as it was before the
    first, in whatever order the calls of each pack expansion are
    evaluated. *)
Theorem X10_swap_twice (order1 order2 : eval_order) m containers (a b : Z) (A B : Iter) :
  is_eval_order (length containers) order1 ->
  is_eval_order (length containers) order2 ->
  NoDup containers ->
  synchronized containers a A ->
  synchronized containers b B ->
  (forall c, In c containers -> 0 <= a < c_size m c /\ 0 <= b < c_size m c) ->
  IterPack_swap nested_friend_denied order1 (pack A) (pack B) m = IllFormed /\
  exists m' m'',
    IterPack_swap nested_friend_granted order1 (pack A) (pack B) m
    = Return (pack A, pack B, m') /\
    IterPack_swap nested_friend_granted order2 (pack A) (pack B) m'
    = Return (pack A, pack B, m'') /\
    (forall c, m'' c = m c).
Proof.
  intros Ho1 Ho2 Hnd HA HB Hrange. split; [reflexivity |].
  apply synchronized_eq in HA, HB. subst A B.
  cbn [Iter_ctor pack].
  destruct (IterPack_swap_at_offset order1 m containers a b Ho1 Hnd Hrange)
    as (m' & Hrun1 & Hin1 & Hout1).
  pose proof (swapped_sizes m m' containers _ _ Hin1 Hout1) as Hsize.
  destruct (IterPack_swap_at_offset order2 m' containers a b Ho2 Hnd)
    as (m'' & Hrun2 & Hin2 & Hout2).
  { intros c Hc. rewrite Hsize. now apply Hrange. }
  exists m', m''. split; [exact Hrun1 |]. split; [exact Hrun2 |].
  intros c. destruct (in_dec Nat.eq_dec c containers) as [Hc | Hc].
  - apply (exchanged_twice _ _ _ _ _ (Hin1 c Hc) (Hin2 c Hc)).
  - now rewrite (Hout2 c Hc), (Hout1 c Hc).
Qed.

(** X11.  Where [swap] is denied the access to [apply_binary], as under g++,
    the call does not compile.  Where it is granted, the result of a swap
    depends neither on the order of its two arguments nor on the order in
    which the calls of the pack expansion are evaluated: for two cursors over
    a group of pairwise distinct containers at valid offsets, [swap( *A, *B)]
    under one order of evaluation and [swap( *B, *A)] under any other leave
    the same elements in every container; and a cursor swapped with itself
    changes nothing. *)
Theorem X11_swap_symmetric (order1 order2 : eval_order) m containers
    (a b : Z) (A B : Iter) :
  is_eval_order (length containers) order1 ->
  is_eval_order (length containers) order2 ->
  NoDup containers ->
  synchronized containers a A ->
  synchronized containers b B ->
  (forall c, In c containers -> 0 <= a < c_size m c /\ 0 <= b < c_size m c) ->
  IterPack_swap nested_friend_denied order1 (pack A) (pack B) m = IllFormed /\
  exists m1 m2 m3,
    IterPack_swap nested_friend_granted order1 (pack A) (pack B) m
    = Return (pack A, pack B, m1) /\
    IterPack_swap nested_friend_granted order2 (pack B) (pack A) m
    = Return (pack B, pack A, m2) /\
    IterPack_swap nested_friend_granted order1 (pack A) (pack A) m
    = Return (pack A, pack A, m3) /\
    (forall c, m1 c = m2 c) /\
    (forall c, m3 c = m c).
Proof.
  intros Ho1 Ho2 Hnd HA HB Hrange. split; [reflexivity |].
  apply synchronized_eq in HA, HB. subst A B.
  cbn [Iter_ctor pack].
  destruct (IterPack_swap_at_offset order1 m containers a b Ho1 Hnd Hrange)
    as (m1 & Hrun1 & Hin1 & Hout1).
  destruct (IterPack_swap_at_offset order2 m containers b a Ho2 Hnd)
    as (m2 & Hrun2 & Hin2 & Hout2).
  { intros c Hc. destruct (Hrange c Hc). now split. }
  destruct (IterPack_swap_at_offset order1 m containers a a Ho1 Hnd)
    as (m3 & Hrun3 & Hin3 & Hout3).
  { intros c Hc. destruct (Hrange c Hc). now split. }
  exists m1, m2, m3. repeat (split; [assumption |]). split.
  - intros c. destruct (in_dec Nat.eq_dec c containers) as [Hc | Hc].
    + apply (exchanged_unique (Z.to_nat a) (Z.to_nat b) (m c));
        [now apply Hin1 | apply exchanged_sym; now apply Hin2].
    + now rewrite (Hout1 c Hc), (Hout2 c Hc).
  - intros c. destruct (in_dec Nat.eq_dec c containers) as [Hc | Hc].
    + apply (exchanged_same (Z.to_nat a)). now apply Hin3.
    + now apply Hout3.
Qed.

(** X12.  Where [swap] is denied the access to [apply_binary], as under g++,
    the call does not compile.  Where it is granted, a swap only permutes:
    for two cursors over a group of pairwise distinct containers at valid
    offsets, after [swap( *A, *B)] every container holds a permutation of its
    former elements and has its former size, so that [Begin] and [End] of any
    group give what they gave before. *)
Theorem X12_swap_permutes (order : eval_order) m containers (a b : Z) (A B : Iter) :
  is_eval_order (length containers) order ->
  NoDup containers ->
  synchronized containers a A ->
  synchronized containers b B ->
  (forall c, In c containers -> 0 <= a < c_size m c /\ 0 <= b < c_size m c) ->
  IterPack_swap nested_friend_denied order (pack A) (pack B) m = IllFormed /\
  exists m',
    IterPack_swap nested_friend_granted order (pack A) (pack B) m
    = Return (pack A, pack B, m') /\
    (forall c, Permutation (m' c) (m c)) /\
    (forall c, c_size m' c = c_size m c) /\
    (forall group : list handle,
        Begin m' group = Begin m group /\ End m' group = End m group).
Proof.
  intros Ho Hnd HA HB Hrange. split; [reflexivity |].
  apply synchronized_eq in HA, HB. subst A B.
  cbn [Iter_ctor pack].
  destruct (IterPack_swap_at_offset order m containers a b Ho Hnd Hrange)
    as (m' & Hrun & Hin & Hout).
  pose proof (swapped_sizes m m' containers _ _ Hin Hout) as Hsize.
  exists m'. split; [exact Hrun |]. split; [|split; [exact Hsize |]].
  - intros c. destruct (in_dec Nat.eq_dec c containers) as [Hc | Hc].
    + apply (exchanged_Permutation _ _ _ _ (Hin c Hc)).
    + now rewrite (Hout c Hc).
  - intros group. split.
    + unfold Begin. now rewrite (map_ext _ _ Hsize).
    + unfold End, c_end. f_equal. apply map_ext. intros c. now rewrite Hsize.
Qed.

End SwapMore.

(** *** Value comparisons, again *)

Section tuple_cotrans.
Context {A : Type} (lt : A -> A -> bool).
Hypothesis lt_cotrans :
  forall x y z, lt x y = true -> lt x z = true \/ lt z y = true.

Lemma tuple_lt_cotrans (t u v : list A) :
  length t = length u ->
  tuple_lt lt t v = true -> tuple_lt lt t u = true \/ tuple_lt lt u v = true.
Proof.
  revert u v. induction t as [|x t IH]; intros [|y u] [|z v] Hlen;
    cbn [tuple_lt]; try discriminate.
  rewrite !orb_true_iff, !andb_true_iff, !negb_true_iff.
  intros [Hxz | [Hzx Htv]].
  - destruct (lt_cotrans x z y Hxz) as [H | H]; [left | right]; now left.
  - destruct (lt x y) eqn:Hxy; [left; now left |].
    destruct (lt y z) eqn:Hyz; [right; now left |].
    assert (lt y x = false) as Hyx.
    { destruct (lt y x) eqn:E; [|reflexivity].
      destruct (lt_cotrans y x z E); congruence. }
    assert (lt z y = false) as Hzy.
    { destruct (lt z y) eqn:E; [|reflexivity].
      destruct (lt_cotrans z y x E); congruence. }
    destruct (IH u v) as [H | H]; [cbn in Hlen; lia | exact Htv | |].
    + left. right. now split.
    + right. right. now split.
Qed.
End tuple_cotrans.

Section ValuesMore.
Context {V : Type} (v_lt v_eq : V -> V -> bool).
Implicit Types (m : @memory V) (containers : list handle).

Lemma load_all_congr m1 m2 containers (k1 k2 : nat) :
  (forall c, In c containers -> m1 c !! k1 = m2 c !! k2) ->
  load_all m1 (map (fun c => mkRef c k1) containers) =
  load_all m2 (map (fun c => mkRef c k2) containers).
Proof.
  unfold load_all. induction containers as [|c cs IH]; intros H; [reflexivity |].
  cbn [map collect]. unfold load at 1 3. cbn [ref_seq ref_idx].
  rewrite (H c) by now left. rewrite IH by (intros c' Hc'; apply H; now right).
  reflexivity.
Qed.

(** Both value comparisons read the elements under the two cursors and
    apply a comparison of tuples to them. *)
Lemma compare_at_offset (f : list V -> list V -> bool) m containers (a b : Z) :
  (forall c, In c containers -> 0 <= a < c_size m c /\ 0 <= b < c_size m c) ->
  (let* t := IterPack_deref_c m (mkPack (at_offset containers a)) in
   let* u := IterPack_deref_c m (mkPack (at_offset containers b)) in
   let* vt := load_all m t in
   let* vu := load_all m u in
   Return (f vt vu)) =
  (let* vt := load_all m (map (fun c => mkRef c (Z.to_nat a)) containers) in
   let* vu := load_all m (map (fun c => mkRef c (Z.to_nat b)) containers) in
   Return (f vt vu)).
Proof.
  intros Hrange.
  rewrite !deref_c_at_offset by (intros c Hc; now apply Hrange). reflexivity.
Qed.

Lemma compare_rows (f : list V -> list V -> bool) m containers (a b : Z) :
  (forall c, In c containers -> 0 <= a < c_size m c /\ 0 <= b < c_size m c) ->
  exists va vb : list V,
    length va = length containers /\ length vb = length containers /\
    load_all m (map (fun c => mkRef c (Z.to_nat a)) containers) = Return va /\
    load_all m (map (fun c => mkRef c (Z.to_nat b)) containers) = Return vb /\
    (let* t := IterPack_deref_c m (mkPack (at_offset containers a)) in
     let* u := IterPack_deref_c m (mkPack (at_offset containers b)) in
     let* vt := load_all m t in
     let* vu := load_all m u in
     Return (f vt vu)) = Return (f va vb).
Proof.
  intros Hrange.
  destruct (load_all_at_offset m containers a) as (va & Hva & Hla);
    [intros c Hc; now apply Hrange |].
  destruct (load_all_at_offset m containers b) as (vb & Hvb & Hlb);
    [intros c Hc; now apply Hrange |].
  exists va, vb. apply Forall2_length in Hva, Hvb.
  split; [congruence |]. split; [congruence |].
  split; [exact Hla |]. split; [exact Hlb |].
  rewrite compare_at_offset by assumption. now rewrite Hla, Hlb.
Qed.

(** X13.  Where [swap] is denied the access to [apply_binary], as under g++,
    the call does not compile.  Where it is granted, a swap moves whole rows:
    for cursors [A], [B] and [K] over a group of pairwise distinct containers
    at the valid offsets [a], [b] and [k], with [k] neither [a] nor [b],
    after [swap( *A, *B)] the value comparisons find under [A] what was under
    [B] and under [B] what was under [A], and under [K] what was there:
    [*A < *B] is what [*B < *A] was, [*A < *K] is what [*B < *K] was,
    [*K < *B] is what [*K < *A] was, and likewise for [==]. *)
Theorem X13_swap_moves_rows (order : eval_order) m containers (a b k : Z) (A B K : Iter) :
  is_eval_order (length containers) order ->
  NoDup containers ->
  synchronized containers a A ->
  synchronized containers b B ->
  synchronized containers k K ->
  (forall c, In c containers ->
             0 <= a < c_size m c /\ 0 <= b < c_size m c /\ 0 <= k < c_size m c) ->
  k <> a -> k <> b ->
  IterPack_swap nested_friend_denied order (pack A) (pack B) m = IllFormed /\
  exists m',
    IterPack_swap nested_friend_granted order (pack A) (pack B) m
    = Return (pack A, pack B, m') /\
    IterPack_lt v_lt m' (pack A) (pack B) = IterPack_lt v_lt m (pack B) (pack A) /\
    IterPack_lt v_lt m' (pack A) (pack K) = IterPack_lt v_lt m (pack B) (pack K) /\
    IterPack_lt v_lt m' (pack K) (pack B) = IterPack_lt v_lt m (pack K) (pack A) /\
    IterPack_eq v_eq m' (pack A) (pack B) = IterPack_eq v_eq m (pack B) (pack A) /\
    IterPack_eq v_eq m' (pack A) (pack K) = IterPack_eq v_eq m (pack B) (pack K) /\
    IterPack_eq v_eq m' (pack K) (pack B) = IterPack_eq v_eq m (pack K) (pack A).
Proof.
  intros Ho Hnd HA HB HK Hrange Hka Hkb. split; [reflexivity |].
  apply synchronized_eq in HA, HB, HK. subst A B K. cbn [Iter_ctor pack].
  destruct (IterPack_swap_at_offset order m containers a b Ho Hnd)
    as (m' & Hrun & Hin & Hout).
  { intros c Hc. destruct (Hrange c Hc) as (? & ? & ?). now split. }
  pose proof (swapped_sizes m m' containers _ _ Hin Hout) as Hsize.
  assert (forall c, In c containers ->
            0 <= a < c_size m' c /\ 0 <= b < c_size m' c /\ 0 <= k < c_size m' c)
    as Hrange'.
  { intros c Hc. rewrite Hsize. now apply Hrange. }
  assert (load_all m' (map (fun c => mkRef c (Z.to_nat a)) containers)
          = load_all m (map (fun c => mkRef c (Z.to_nat b)) containers)) as Ea.
  { apply load_all_congr. intros c Hc. now destruct (Hin c Hc) as (_ & H & _). }
  assert (load_all m' (map (fun c => mkRef c (Z.to_nat b)) containers)
          = load_all m (map (fun c => mkRef c (Z.to_nat a)) containers)) as Eb.
  { apply load_all_congr. intros c Hc. now destruct (Hin c Hc) as (_ & _ & H & _). }
  assert (load_all m' (map (fun c => mkRef c (Z.to_nat k)) containers)
          = load_all m (map (fun c => mkRef c (Z.to_nat k)) containers)) as Ek.
  { apply load_all_congr. intros c Hc. destruct (Hin c Hc) as (_ & _ & _ & H).
    destruct (Hrange c Hc) as (? & ? & ?). apply H; lia. }
  exists m'. split; [exact Hrun |].
  unfold IterPack_lt, IterPack_eq.
  rewrite !compare_at_offset
    by (intros c Hc; destruct (Hrange c Hc) as (? & ? & ?);
        destruct (Hrange' c Hc) as (? & ? & ?); now split).
  rewrite Ea, Eb, Ek. repeat split.
Qed.

Lemma it_star_end m (c : handle) : it_star m (c_end m c) = Undefined.
Proof.
  unfold it_star, c_end. cbn. rewrite Z.ltb_irrefl. now rewrite andb_false_r.
Qed.

Lemma it_star_outcome m (x : iterator) :
  it_star m x = Undefined \/ exists r, it_star m x = Return r.
Proof.
  unfold it_star. destruct (_ && _); [right; eexists; reflexivity | now left].
Qed.

(** X14.  The cursor returned by [End] for a non-empty group cannot be
    dereferenced: every component is past the last element of its container,
    and no operation checks bounds, so a value comparison that has it as an
    operand has undefined behaviour, whatever the other operand. *)
Theorem X14_End_not_dereferenceable m containers (other : IterPack) :
  containers <> [] ->
  IterPack_deref_c m (pack (End m containers)) = Undefined /\
  IterPack_lt v_lt m (pack (End m containers)) other = Undefined /\
  IterPack_lt v_lt m other (pack (End m containers)) = Undefined /\
  IterPack_eq v_eq m (pack (End m containers)) other = Undefined /\
  IterPack_eq v_eq m other (pack (End m containers)) = Undefined.
Proof.
  intros Hne.
  assert (IterPack_deref_c m (pack (End m containers)) = Undefined) as Hend.
  { destruct containers as [|c cs]; [congruence |].
    unfold IterPack_deref_c, IterPack_deref_c_, std_forward_as_tuple.
    cbn [End Iter_ctor pack iters_ map collect]. now rewrite it_star_end. }
  assert (IterPack_deref_c m other = Undefined \/
          exists refs, IterPack_deref_c m other = Return refs) as Hother.
  { unfold IterPack_deref_c, IterPack_deref_c_, std_forward_as_tuple.
    induction (iters_ other) as [|x xs IH]; [right; now exists [] |].
    cbn [map collect].
    destruct (it_star_outcome m x) as [-> | (r & ->)]; [now left |].
    cbn [bind]. destruct IH as [-> | (refs & ->)]; [now left |].
    right. eexists. reflexivity. }
  split; [exact Hend |].
  unfold IterPack_lt, IterPack_eq. rewrite Hend. cbn [bind].
  split; [reflexivity |].
  split; [destruct Hother as [-> | (refs & ->)]; reflexivity |].
  split; [reflexivity |].
  destruct Hother as [-> | (refs & ->)]; reflexivity.
Qed.

End ValuesMore.

Section ValueOrder.
Context {V : Type} (v_lt : V -> V -> bool).
Implicit Types (m : @memory V) (containers : list handle).

(** X15.  [IterPack]'s [operator<] is a comparator a sort can use: where
    [operator<] of the elements is a strict weak order (irreflexive,
    transitive, and with [x < z] or [z < y] whenever [x < y]), so is the
    value comparison of the cursors over one group at valid offsets. *)
Theorem X15_IterPack_lt_strict_weak_order m containers (a b c : Z) (A B C : Iter) :
  (forall x, v_lt x x = false) ->
  (forall x y z, v_lt x y = true -> v_lt y z = true -> v_lt x z = true) ->
  (forall x y z, v_lt x y = true -> v_lt x z = true \/ v_lt z y = true) ->
  synchronized containers a A ->
  synchronized containers b B ->
  synchronized containers c C ->
  (forall h, In h containers ->
             0 <= a < c_size m h /\ 0 <= b < c_size m h /\ 0 <= c < c_size m h) ->
  IterPack_lt v_lt m (pack A) (pack A) = Return false /\
  (IterPack_lt v_lt m (pack A) (pack B) = Return true ->
   IterPack_lt v_lt m (pack B) (pack A) = Return false) /\
  (IterPack_lt v_lt m (pack A) (pack B) = Return true ->
   IterPack_lt v_lt m (pack B) (pack C) = Return true ->
   IterPack_lt v_lt m (pack A) (pack C) = Return true) /\
  (IterPack_lt v_lt m (pack A) (pack C) = Return true ->
   IterPack_lt v_lt m (pack A) (pack B) = Return true \/
   IterPack_lt v_lt m (pack B) (pack C) = Return true).
Proof.
  intros Hirr Htrans Hcot HA HB HC Hrange.
  apply synchronized_eq in HA, HB, HC. subst A B C. cbn [Iter_ctor pack].
  destruct (load_all_at_offset m containers a) as (va & Hva & Hla);
    [intros h Hh; now apply Hrange |].
  destruct (load_all_at_offset m containers b) as (vb & Hvb & Hlb);
    [intros h Hh; now apply Hrange |].
  destruct (load_all_at_offset m containers c) as (vc & Hvc & Hlc);
    [intros h Hh; now apply Hrange |].
  apply Forall2_length in Hva, Hvb, Hvc.
  unfold IterPack_lt.
  rewrite !compare_at_offset
    by (intros h Hh; destruct (Hrange h Hh) as (? & ? & ?); now split).
  rewrite Hla, Hlb, Hlc. cbn [bind].
  split; [f_equal; now apply tuple_lt_irrefl |].
  split; [intros [= H]; f_equal; now apply tuple_lt_asym |].
  split; [intros [= H1] [= H2]; f_equal; now apply tuple_lt_trans with vb |].
  intros [= H].
  destruct (tuple_lt_cotrans v_lt Hcot va vb vc) as [H' | H'];
    [congruence | exact H | left | right]; now rewrite H'.
Qed.

End ValueOrder.

(** *** Instances of the further properties *)

Lemma X3_witness :
  iters_ (pack (End mem3 [0; 2]%nat)) !! 1%nat = Some (mkIt 2%nat (c_size mem3 2%nat)) /\
  (forall k : Z, ~ synchronized [0; 2]%nat k (End mem3 [0; 2]%nat)).
Proof.
  destruct (X3_End_unvalidated mem3 [0; 2]%nat 0%nat 2%nat) as [H1 H2].
  - cbn. auto.
  - cbn. auto.
  - vm_compute. discriminate.
  - split; [apply H1; reflexivity | exact H2].
Defined.

Lemma X4_witness :
  exists b : Iter,
    Begin mem3 [0; 1]%nat = Return b /\
    Iter_minus (End mem3 [0; 1]%nat) b = Return 3.
Proof.
  destruct (X4_Begin_End_range mem3 [0; 1]%nat 3) as (b & Hb & Hd & _).
  - discriminate.
  - exact mem3_sizes.
  - exists b. split; assumption.
Defined.

Lemma X6_witness :
  Iter_minus (Iter_plus (Iter_ctor (at_offset [0; 1]%nat 1)) 2)
             (Iter_ctor (at_offset [0; 1]%nat 1)) = Return 2.
Proof.
  destruct (X6_minus_after_plus (Iter_ctor (at_offset [0; 1]%nat 1)) 2) as [H _].
  - discriminate.
  - exact H.
Defined.

Lemma X7_witness :
  exists d : Z,
    Iter_minus (Iter_ctor (at_offset [0; 1]%nat 3)) (Iter_ctor (at_offset [0; 1]%nat 1))
    = Return d.
Proof.
  destruct (X7_plus_after_minus [0; 1]%nat 1 3
              (Iter_ctor (at_offset [0; 1]%nat 1))
              (Iter_ctor (at_offset [0; 1]%nat 3))) as (d & Hd & _).
  - discriminate.
  - reflexivity.
  - reflexivity.
  - exists d. exact Hd.
Defined.

Lemma X8_witness :
  Iter_eq (Iter_ctor (at_offset [0; 1]%nat 1)) (Iter_ctor (at_offset [0; 1]%nat 1)) = true
  <-> Iter_ctor (at_offset [0; 1]%nat 1) = Iter_ctor (at_offset [0; 1]%nat 1).
Proof.
  destruct (X8_Iter_eq_reflects [0; 1]%nat
              (Iter_ctor (at_offset [0; 1]%nat 1))
              (Iter_ctor (at_offset [0; 1]%nat 1))) as (_ & H & _).
  - reflexivity.
  - reflexivity.
  - exact H.
Defined.

Lemma X9_witness :
  Iter_lt (Iter_ctor (at_offset [0; 1]%nat 1)) (Iter_ctor (at_offset [0; 1]%nat 1)) = false.
Proof.
  destruct (X9_Iter_lt_strict_order [0; 1]%nat
              (Iter_ctor (at_offset [0; 1]%nat 1))
              (Iter_ctor (at_offset [0; 1]%nat 2))
              (Iter_ctor (at_offset [0; 1]%nat 3))) as (H & _).
  - reflexivity.
  - reflexivity.
  - reflexivity.
  - exact H.
Defined.

Lemma order_01 : is_eval_order (length [0; 1]%nat) [0; 1]%nat.
Proof. apply Permutation_refl. Defined.

Lemma order_10 : is_eval_order (length [0; 1]%nat) [1; 0]%nat.
Proof. exact (perm_swap 0%nat 1%nat []). Defined.

Lemma X5_witness :
  Iter_plus (Iter_plus (Iter_ctor (at_offset [0; 1]%nat 0)) 1) 2
  = Iter_plus (Iter_ctor (at_offset [0; 1]%nat 0)) (to_int (1 + 2)).
Proof.
  destruct (X5_arithmetic_laws (Iter_ctor (at_offset [0; 1]%nat 0)) 1 2)
    as (_ & _ & _ & H & _).
  apply H. unfold is_int, INT_MIN, INT_MAX. lia.
Defined.

Lemma X10_witness :
  exists m' m'' : @memory Z,
    IterPack_swap nested_friend_granted [0; 1]%nat (mkPack (at_offset [0; 1]%nat 0))
                  (mkPack (at_offset [0; 1]%nat 2)) mem3
    = Return (mkPack (at_offset [0; 1]%nat 0), mkPack (at_offset [0; 1]%nat 2), m') /\
    IterPack_swap nested_friend_granted [1; 0]%nat (mkPack (at_offset [0; 1]%nat 0))
                  (mkPack (at_offset [0; 1]%nat 2)) m'
    = Return (mkPack (at_offset [0; 1]%nat 0), mkPack (at_offset [0; 1]%nat 2), m'') /\
    (forall c, m'' c = mem3 c).
Proof.
  destruct (X10_swap_twice [0; 1]%nat [1; 0]%nat mem3 [0; 1]%nat 0 2
              (Iter_ctor (at_offset [0; 1]%nat 0))
              (Iter_ctor (at_offset [0; 1]%nat 2))) as [_ H].
  - exact order_01.
  - exact order_10.
  - exact NoDup_01.
  - reflexivity.
  - reflexivity.
  - intros c Hc. apply mem3_range; [lia | lia | exact Hc].
  - exact H.
Defined.

Lemma X11_witness :
  exists m1 m2 : @memory Z,
    IterPack_swap nested_friend_granted [0; 1]%nat (mkPack (at_offset [0; 1]%nat 0))
                  (mkPack (at_offset [0; 1]%nat 2)) mem3
    = Return (mkPack (at_offset [0; 1]%nat 0), mkPack (at_offset [0; 1]%nat 2), m1) /\
    IterPack_swap nested_friend_granted [1; 0]%nat (mkPack (at_offset [0; 1]%nat 2))
                  (mkPack (at_offset [0; 1]%nat 0)) mem3
    = Return (mkPack (at_offset [0; 1]%nat 2), mkPack (at_offset [0; 1]%nat 0), m2) /\
    (forall c, m1 c = m2 c).
Proof.
  destruct (X11_swap_symmetric [0; 1]%nat [1; 0]%nat mem3 [0; 1]%nat 0 2
              (Iter_ctor (at_offset [0; 1]%nat 0))
              (Iter_ctor (at_offset [0; 1]%nat 2)))
    as (_ & m1 & m2 & m3 & H1 & H2 & _ & H12 & _).
  - exact order_01.
  - exact order_10.
  - exact NoDup_01.
  - reflexivity.
  - reflexivity.
  - intros c Hc. apply mem3_range; [lia | lia | exact Hc].
  - exists m1, m2. split; [exact H1 |]. split; [exact H2 | exact H12].
Defined.

Lemma X12_witness :
  exists m' : @memory Z,
    IterPack_swap nested_friend_granted [1; 0]%nat (mkPack (at_offset [0; 1]%nat 0))
                  (mkPack (at_offset [0; 1]%nat 2)) mem3
    = Return (mkPack (at_offset [0; 1]%nat 0), mkPack (at_offset [0; 1]%nat 2), m') /\
    (forall c, Permutation (m' c) (mem3 c)).
Proof.
  destruct (X12_swap_permutes [1; 0]%nat mem3 [0; 1]%nat 0 2
              (Iter_ctor (at_offset [0; 1]%nat 0))
              (Iter_ctor (at_offset [0; 1]%nat 2)))
    as (_ & m' & H1 & H2 & _).
  - exact order_10.
  - exact NoDup_01.
  - reflexivity.
  - reflexivity.
  - intros c Hc. apply mem3_range; [lia | lia | exact Hc].
  - exists m'. split; [exact H1 | exact H2].
Defined.

Lemma mem3_range3 (a b k : Z) (c : handle) :
  0 <= a < 3 -> 0 <= b < 3 -> 0 <= k < 3 -> In c [0; 1]%nat ->
  0 <= a < c_size mem3 c /\ 0 <= b < c_size mem3 c /\ 0 <= k < c_size mem3 c.
Proof.
  intros Ha Hb Hk Hc. rewrite (mem3_sizes c Hc). split; [|split]; assumption.
Defined.

Lemma X13_witness :
  exists m' : @memory Z,
    IterPack_swap nested_friend_granted [0; 1]%nat (mkPack (at_offset [0; 1]%nat 0))
                  (mkPack (at_offset [0; 1]%nat 2)) mem3
    = Return (mkPack (at_offset [0; 1]%nat 0), mkPack (at_offset [0; 1]%nat 2), m') /\
    IterPack_lt Z.ltb m' (mkPack (at_offset [0; 1]%nat 0)) (mkPack (at_offset [0; 1]%nat 2))
    = IterPack_lt Z.ltb mem3 (mkPack (at_offset [0; 1]%nat 2)) (mkPack (at_offset [0; 1]%nat 0)).
Proof.
  destruct (X13_swap_moves_rows Z.ltb Z.eqb [0; 1]%nat mem3 [0; 1]%nat 0 2 1
              (Iter_ctor (at_offset [0; 1]%nat 0))
              (Iter_ctor (at_offset [0; 1]%nat 2))
              (Iter_ctor (at_offset [0; 1]%nat 1)))
    as (_ & m' & H1 & H2 & _).
  - exact order_01.
  - exact NoDup_01.
  - reflexivity.
  - reflexivity.
  - reflexivity.
  - intros c Hc. apply mem3_range3; [lia | lia | lia | exact Hc].
  - lia.
  - lia.
  - exists m'. split; [exact H1 | exact H2].
Defined.

Lemma X14_witness :
  IterPack_lt Z.ltb mem3 (pack (End mem3 [0; 1]%nat)) (mkPack (at_offset [0; 1]%nat 0))
  = Undefined.
Proof.
  destruct (X14_End_not_dereferenceable Z.ltb Z.eqb mem3 [0; 1]%nat
              (mkPack (at_offset [0; 1]%nat 0))) as (_ & H & _).
  - discriminate.
  - exact H.
Defined.

Lemma Z_ltb_trans (x y z : Z) : (x <? y) = true -> (y <? z) = true -> (x <? z) = true.
Proof. rewrite !Z.ltb_lt. lia. Defined.

Lemma Z_ltb_cotrans (x y z : Z) : (x <? y) = true -> (x <? z) = true \/ (z <? y) = true.
Proof. rewrite !Z.ltb_lt. lia. Defined.

Lemma X15_witness :
  IterPack_lt Z.ltb mem3 (mkPack (at_offset [0; 1]%nat 0)) (mkPack (at_offset [0; 1]%nat 0))
  = Return false.
Proof.
  destruct (X15_IterPack_lt_strict_weak_order Z.ltb mem3 [0; 1]%nat 0 1 2
              (Iter_ctor (at_offset [0; 1]%nat 0))
              (Iter_ctor (at_offset [0; 1]%nat 1))
              (Iter_ctor (at_offset [0; 1]%nat 2))) as (H & _).
  - exact Z.ltb_irrefl.
  - exact Z_ltb_trans.
  - exact Z_ltb_cotrans.
  - reflexivity.
  - reflexivity.
  - reflexivity.
  - intros c Hc. apply mem3_range3; [lia | lia | lia | exact Hc].
  - exact H.
Defined.

(** *** Traversals *)

Lemma apply_op_synchronized (containers : list handle) (k : Z) (it : Iter) (o : cursor_op) :
  synchronized containers k it ->
  synchronized containers (k + op_shift o) (apply_op it o).
Proof.
  unfold synchronized. intros H. destruct o; cbn; rewrite H.
  - apply apply_all_inc.
  - apply apply_all_dec.
  - apply apply_all_advance.
Qed.

Section Traversal.
Context {V : Type} (v_lt v_eq : V -> V -> bool).
Implicit Types (m : @memory V) (containers : list handle).

(** X16.  A loop from [Begin] to [End] visits every row once, in order: for
    a non-empty group of containers of equal length [L] and every [k] below
    [L], the begin cursor pre-incremented [k] times is before the end cursor
    and different from it, and the const [deref()] on which the value
    comparisons rest yields the references to element [k] of every
    container, in the order of the group. *)
Theorem X16_traversal m containers (L k : Z) :
  containers <> [] ->
  (forall c, In c containers -> c_size m c = L) ->
  0 <= k < L ->
  exists (b : Iter) (vs : list V),
    Begin m containers = Return b /\
    Iter_ne (Nat.iter (Z.to_nat k) Iter_preinc b) (End m containers) = true /\
    Iter_lt (Nat.iter (Z.to_nat k) Iter_preinc b) (End m containers) = true /\
    IterPack_deref_c m (pack (Nat.iter (Z.to_nat k) Iter_preinc b)) =
    Return (map (fun c => mkRef c (Z.to_nat k)) containers) /\
    load_all m (map (fun c => mkRef c (Z.to_nat k)) containers) = Return vs /\
    Forall2 (fun c v => m c !! Z.to_nat k = Some v) containers vs.
Proof.
  intros Hne HL Hk.
  assert (forall c, In c containers -> 0 <= k < c_size m c) as Hrange.
  { intros c Hc. now rewrite (HL c Hc). }
  destruct (load_all_at_offset m containers k Hrange) as (vs & Hvs & Hload).
  exists (Iter_ctor (at_offset containers 0)), vs.
  split; [now apply Begin_equal_lengths with L |].
  rewrite (iter_preinc_begin containers k) by lia.
  rewrite (End_equal_lengths _ _ L HL).
  unfold Iter_ne, Iter_lt, tuple_ne. cbn [Iter_ctor pack iters_].
  rewrite tuple_eq_positions, tuple_lt_positions.
  destruct containers as [|c cs]; [congruence |].
  split; [apply negb_true_iff, Z.eqb_neq; lia |].
  split; [apply Z.ltb_lt; lia |].
  split; [now apply deref_c_at_offset |].
  split; assumption.
Qed.

(** X17.  Whatever sequence of [++], [--] and [+=] is applied to the cursor
    returned by [Begin], the cursor stays synchronized, at the sum of the
    steps: its difference from the begin cursor is that sum, and it compares
    equal to the begin cursor exactly when the sum is 0. *)
Theorem X17_moves_keep_synchronized m containers (b : Iter) (ops : list cursor_op) :
  Begin m containers = Return b ->
  synchronized containers (fold_left Z.add (map op_shift ops) 0)
               (fold_left apply_op ops b) /\
  Iter_minus (fold_left apply_op ops b) b =
  Return (fold_left Z.add (map op_shift ops) 0) /\
  Iter_eq (fold_left apply_op ops b) b = (fold_left Z.add (map op_shift ops) 0 =? 0).
Proof.
  intros Hb. apply Begin_returns in Hb as (Hne & -> & _).
  assert (forall k it,
            synchronized containers k it ->
            synchronized containers (fold_left Z.add (map op_shift ops) k)
                         (fold_left apply_op ops it)) as Hgen.
  { induction ops as [|o ops IH]; intros k it Hit; [exact Hit |].
    cbn [map fold_left]. apply IH. now apply apply_op_synchronized. }
  pose proof (Hgen 0 (Iter_ctor (at_offset containers 0)) eq_refl) as Hsync.
  split; [exact Hsync |].
  apply synchronized_eq in Hsync. rewrite Hsync.
  unfold Iter_minus, Iter_eq. cbn [Iter_ctor pack iters_].
  rewrite tuple_eq_positions.
  destruct containers as [|c cs]; [congruence |].
  unfold it_diff. cbn. rewrite Nat.eqb_refl. split; [f_equal; lia | reflexivity].
Qed.

(** X18.  Two cursors over one group at valid offsets that compare equal as
    positions denote the same row: where [operator==] of the elements is
    reflexive and [operator<] irreflexive, their value comparison [==] is
    true and [<] is false. *)
Theorem X18_equal_positions_equal_values m containers (a b : Z) (A B : Iter) :
  (forall x, v_eq x x = true) ->
  (forall x, v_lt x x = false) ->
  synchronized containers a A ->
  synchronized containers b B ->
  (forall c, In c containers -> 0 <= a < c_size m c /\ 0 <= b < c_size m c) ->
  Iter_eq A B = true ->
  IterPack_eq v_eq m (pack A) (pack B) = Return true /\
  IterPack_lt v_lt m (pack A) (pack B) = Return false.
Proof.
  intros Hrefl Hirr HA HB Hrange Heq.
  assert (A = B) as <-.
  { unfold Iter_eq in Heq. apply tuple_eq_it_eqb in Heq.
    destruct A as [[t]], B as [[u]]. cbn in Heq. now subst. }
  clear HB Heq. apply synchronized_eq in HA. subst A. cbn [Iter_ctor pack].
  destruct (load_all_at_offset m containers a) as (va & _ & Hla);
    [intros c Hc; now apply Hrange |].
  unfold IterPack_eq, IterPack_lt.
  rewrite !compare_at_offset
    by (intros c Hc; destruct (Hrange c Hc); now split).
  rewrite Hla. cbn [bind]. split; f_equal.
  - clear Hla. induction va as [|x va IH]; [reflexivity |].
    cbn. now rewrite Hrefl, IH.
  - now apply tuple_lt_irrefl.
Qed.

End Traversal.

Lemma X16_witness :
  exists (b : Iter) (vs : list Z),
    Begin mem3 [0; 1]%nat = Return b /\
    IterPack_deref_c mem3 (pack (Nat.iter (Z.to_nat 2) Iter_preinc b)) =
    Return (map (fun c => mkRef c (Z.to_nat 2)) [0; 1]%nat) /\
    load_all mem3 (map (fun c => mkRef c (Z.to_nat 2)) [0; 1]%nat) = Return vs.
Proof.
  destruct (X16_traversal mem3 [0; 1]%nat 3 2) as (b & vs & Hb & _ & _ & Hd & Hl & _).
  - discriminate.
  - exact mem3_sizes.
  - lia.
  - exists b, vs. split; [exact Hb |]. split; [exact Hd | exact Hl].
Defined.

Lemma X17_witness :
  synchronized [0; 1]%nat
    (fold_left Z.add (map op_shift [op_preinc; op_plus_assign 2; op_predec]) 0)
    (fold_left apply_op [op_preinc; op_plus_assign 2; op_predec]
       (Iter_ctor (at_offset [0; 1]%nat 0))).
Proof.
  destruct (X17_moves_keep_synchronized mem3 [0; 1]%nat
              (Iter_ctor (at_offset [0; 1]%nat 0))
              [op_preinc; op_plus_assign 2; op_predec]) as (H & _).
  - reflexivity.
  - exact H.
Defined.

Lemma X18_witness :
  IterPack_eq Z.eqb mem3 (mkPack (at_offset [0; 1]%nat 1)) (mkPack (at_offset [0; 1]%nat 1))
  = Return true.
Proof.
  destruct (X18_equal_positions_equal_values Z.ltb Z.eqb mem3 [0; 1]%nat 1 1
              (Iter_ctor (at_offset [0; 1]%nat 1))
              (Iter_ctor (at_offset [0; 1]%nat 1))) as (H & _).
  - exact Z.eqb_refl.
  - exact Z.ltb_irrefl.
  - reflexivity.
  - reflexivity.
  - intros c Hc. apply mem3_range; [lia | lia | exact Hc].
  - reflexivity.
  - exact H.
Defined.
